(** * report.py: parsing of info.txt files and aggregation by version prefix

    A shallow embedding of [parse_info_file] and [process_root_directory]
    of [report.py], and the properties of the parser and of the aggregator
    stated over it.

    Modelling choices.
    - A Python [str] is a [string]; its characters range over the code
      points below 256, with Python's classification of whitespace on them.
    - Python exceptions are explicit: a computation is a value of [py A],
      either [Ret a] or [Raise e]; [try ... except E] is [try_except].
      Every subscript of the source that can raise ([l[0]], [l[-1]],
      [d[k]]) is modelled by an operation that can raise.
    - A Python [dict] is an insertion-ordered association list with
      string keys ([dict V]); [d.items()] is the list itself.
    - A file on disk is unreadable ([open] or [readlines] raises
      [IOError]), or undecodable (its bytes are not text in the encoding in
      use: [readlines] raises [UnicodeDecodeError]), or the list of lines
      that [readlines] returns; the tree walked by [rglob] is the list of
      its info.txt files in traversal order.
    - The diagnostics printed on the way are not part of the model. *)

From Stdlib Require Import String Ascii List Arith Lia.
From stdpp Require Import base option list strings gmap.
Import ListNotations.

Local Open Scope string_scope.
Local Open Scope list_scope.
Local Open Scope nat_scope.

(** ** Exceptions *)

Inductive exn : Type :=
  | IOError
  | IndexError
  | ValueError
  | KeyError
  | UnicodeDecodeError.

Global Instance exn_eq_dec : EqDecision exn.
Proof. solve_decision. Defined.

Inductive py (A : Type) : Type :=
  | Ret (a : A)
  | Raise (e : exn).

Arguments Ret {A} a.
Arguments Raise {A} e.

Global Instance py_ret : MRet py := λ A a, Ret a.

Global Instance py_bind : MBind py := λ A B f m,
  match m with
  | Ret a => f a
  | Raise e => Raise e
  end.

(** [issubclass(e, E)]: among the exceptions of the model only
    [UnicodeDecodeError] has a parent, [ValueError]. *)
Definition is_a (e E : exn) : bool :=
  match e, E with
  | UnicodeDecodeError, ValueError => true
  | _, _ => bool_decide (e = E)
  end.

(** [try: m except E: h] *)
Definition try_except {A} (m : py A) (E : exn) (h : py A) : py A :=
  match m with
  | Ret a => Ret a
  | Raise e => if is_a e E then h else Raise e
  end.

(** [for x in xs: s = body(s, x)], stopping at the first exception. *)
Fixpoint for_each {S X} (body : S → X → py S) (xs : list X) (s : S) : py S :=
  match xs with
  | [] => Ret s
  | x :: xs' => s' ← body s x; for_each body xs' s'
  end.

(** ** Sequences: the subscripts and slices the source uses *)

(** [l[0]] *)
Definition item_first {A} (l : list A) : py A :=
  match l with
  | [] => Raise IndexError
  | x :: _ => Ret x
  end.

(** [l[-1]] *)
Definition item_last {A} (l : list A) : py A :=
  match last l with
  | None => Raise IndexError
  | Some x => Ret x
  end.

(** [l[:-1]] *)
Definition slice_init {A} (l : list A) : list A := removelast l.

(** ** Strings *)

(** [c.isspace()] on the code points below 256. *)
Definition isspace (c : ascii) : bool :=
  let n := nat_of_ascii c in
  ((9 <=? n) && (n <=? 13)) || ((28 <=? n) && (n <=? 32))
  || (n =? 133) || (n =? 160).

(** [s.lstrip()] *)
Fixpoint lstrip (s : string) : string :=
  match s with
  | EmptyString => EmptyString
  | String c s' => if isspace c then lstrip s' else s
  end.

(** [s.rstrip()] *)
Fixpoint rstrip (s : string) : string :=
  match s with
  | EmptyString => EmptyString
  | String c s' =>
      match rstrip s' with
      | EmptyString => if isspace c then EmptyString else String c EmptyString
      | r => String c r
      end
  end.

(** [s.strip()] *)
Definition strip (s : string) : string := rstrip (lstrip s).

(** [s] without the prefix [p], when [s] starts with [p]. *)
Fixpoint strip_prefix (p s : string) : option string :=
  match p, s with
  | EmptyString, _ => Some s
  | String _ _, EmptyString => None
  | String a p', String b s' =>
      if decide (a = b) then strip_prefix p' s' else None
  end.

(** [s.partition(sep)] when [sep] occurs in [s]: the text before the
    leftmost occurrence and the text after it. *)
Fixpoint find_sep (sep s : string) : option (string * string) :=
  match strip_prefix sep s with
  | Some rest => Some (EmptyString, rest)
  | None =>
      match s with
      | EmptyString => None
      | String c s' =>
          match find_sep sep s' with
          | Some (before, after) => Some (String c before, after)
          | None => None
          end
      end
  end.

(** [s.split(sep, 1)] for a non-empty [sep]. *)
Definition split_once (sep s : string) : list string :=
  match find_sep sep s with
  | Some (before, after) => [before; after]
  | None => [s]
  end.

(** [s.split(c)] for a one-character separator, as its first component
    and the list of the others: the result of [split] is never empty. *)
Fixpoint split_char_ne (c : ascii) (s : string) : string * list string :=
  match s with
  | EmptyString => (EmptyString, [])
  | String a s' =>
      let '(h, t) := split_char_ne c s' in
      if decide (a = c) then (EmptyString, h :: t) else (String a h, t)
  end.

Definition split_char (c : ascii) (s : string) : list string :=
  let '(h, t) := split_char_ne c s in h :: t.

(** [sep.join(l)] *)
Fixpoint join (sep : string) (l : list string) : string :=
  match l with
  | [] => EmptyString
  | [x] => x
  | x :: l' => x +:+ sep +:+ join sep l'
  end.

(** [s.split()]: the maximal runs of non-whitespace characters.
    [split_ws_go] returns the run that starts the string (empty when the
    string starts with whitespace) and the runs after it. *)
Fixpoint split_ws_go (s : string) : string * list string :=
  match s with
  | EmptyString => (EmptyString, [])
  | String a s' =>
      let '(h, t) := split_ws_go s' in
      if isspace a
      then (EmptyString, match h with EmptyString => t | _ => h :: t end)
      else (String a h, t)
  end.

Definition split_ws (s : string) : list string :=
  let '(h, t) := split_ws_go s in
  match h with EmptyString => t | _ => h :: t end.

(** [c in s] *)
Fixpoint has_char (c : ascii) (s : string) : bool :=
  match s with
  | EmptyString => false
  | String a s' => if decide (a = c) then true else has_char c s'
  end.

(** ** Dictionaries *)

Definition dict (V : Type) : Type := list (string * V).

(** [d.get(k)] *)
Fixpoint dict_get {V} (d : dict V) (k : string) : option V :=
  match d with
  | [] => None
  | (k', v) :: d' => if decide (k' = k) then Some v else dict_get d' k
  end.

(** [k in d] *)
Definition dict_mem {V} (d : dict V) (k : string) : bool :=
  match dict_get d k with Some _ => true | None => false end.

(** [d[k]] *)
Definition getitem {V} (d : dict V) (k : string) : py V :=
  match dict_get d k with
  | Some v => Ret v
  | None => Raise KeyError
  end.

(** [d[k] = v]: the value of an existing key is replaced where the key
    stands, a new key goes to the end. *)
Fixpoint setitem {V} (d : dict V) (k : string) (v : V) : dict V :=
  match d with
  | [] => [(k, v)]
  | (k', v') :: d' =>
      if decide (k' = k) then (k, v) :: d' else (k', v') :: setitem d' k v
  end.

(** [d.items()] *)
Definition items {V} (d : dict V) : list (string * V) := d.

(** ** The record parser *)

(** The [data] dictionary of a parsed file. *)
Record file_data : Type := FileData {
  symbols : dict (list string);
  structs : dict (list string)
}.

(** The dictionary [parse_info_file] returns. *)
Record parsed : Type := Parsed {
  version_prefix : string;
  build : string;
  os : string;
  data : file_data
}.

(** What [open(filepath).readlines()] gives: an [IOError], a
    [UnicodeDecodeError], or the lines of the file. *)
Inductive file : Type :=
  | Unreadable
  | Undecodable
  | Lines (lines : list string).

Definition readlines (f : file) : py (list string) :=
  match f with
  | Unreadable => Raise IOError
  | Undecodable => Raise UnicodeDecodeError
  | Lines lines => Ret lines
  end.

(** The bytes of the file are text in the encoding in use. *)
Definition decodes (f : file) : Prop := f ≠ Undecodable.

(** [if name not in d: d[name] = []] followed by
    [d[name].append(hex_value)]. *)
Definition append_hex (d : dict (list string)) (name hex_value : string)
  : py (dict (list string)) :=
  let d1 := if dict_mem d name then d else setitem d name [] in
  l ← getitem d1 name;
  Ret (setitem d1 name (l ++ [hex_value])).

(** [hex_value, symbol_name = line.split()] *)
Definition unpack2 (l : list string) : py (string * string) :=
  match l with
  | [a; b] => Ret (a, b)
  | _ => Raise ValueError
  end.

(** The body of the loop over [symbols_lines] (lines 52-64). *)
Definition symbol_line (d : dict (list string)) (line : string)
  : py (dict (list string)) :=
  try_except
    ('(hex_value, symbol_name) ← unpack2 (split_ws line);
     append_hex d symbol_name hex_value)
    ValueError
    (Ret d).

(** The body of the loop over [structs_lines] (lines 69-85). *)
Definition struct_line (d : dict (list string)) (line : string)
  : py (dict (list string)) :=
  try_except
    (let parts := split_ws line in
     _ ← (if length parts <? 3 then Raise ValueError else Ret ());
     hex_value ← item_first parts;
     member_name ← item_last parts;
     append_hex d member_name hex_value)
    ValueError
    (Ret d).

(** [[line.strip() for line in lines[1:] if line.strip()]] *)
Definition content_lines (rest : list string) : list string :=
  omap (λ line, match strip line with
                | EmptyString => None
                | s => Some s
                end) rest.

(** Lines 27-39: the header. *)
Definition parse_header (first_line : string)
  : py (option (string * string * string)) :=
  try_except
    (version_part ← item_last (split_once " - " first_line);
     let version_parts := split_char "." version_part in
     let version_prefix := join "." (slice_init version_parts) in
     os ← item_first (split_once " - " first_line);
     build ← item_last version_parts;
     Ret (Some (version_prefix, build, os)))
    IndexError
    (Ret None).

Definition parse_info_file (filepath : file) : py (option parsed) :=
  r ← try_except (lines ← readlines filepath; Ret (Some lines))
                 IOError (Ret None);
  match r with
  | None => Ret None
  | Some [] => Ret None
  | Some (line0 :: rest) =>
      let first_line := strip line0 in
      h ← parse_header first_line;
      match h with
      | None => Ret None
      | Some (version_prefix, build, os) =>
          let content_lines := content_lines rest in
          let symbols_lines := take 7 content_lines in
          symbols ← for_each symbol_line symbols_lines [];
          let structs_lines := drop 7 content_lines in
          structs ← for_each struct_line structs_lines [];
          Ret (Some (Parsed version_prefix build os
                            (FileData symbols structs)))
      end
  end.


(** ** The aggregator *)

(** The value stored under a version prefix in [aggregated_data]. *)
Record entry : Type := Entry {
  agg_builds : list string;
  agg_os : string;
  agg_symbols : dict (list string);
  agg_structs : dict (list string)
}.

(** The body shared by the two merge loops (lines 140-147 and 151-157),
    on the table [tbl] of the entry: [set(tbl[name])] is a [gset]. *)
Definition merge_hexes (tbl : dict (list string)) (name : string)
    (hex_values : list string) : py (dict (list string)) :=
  let tbl1 := if dict_mem tbl name then tbl else setitem tbl name [] in
  cur ← getitem tbl1 name;
  let existing_hexes : gset string := list_to_set cur in
  let new_hexes := filter (λ h, h ∉ existing_hexes) hex_values in
  l ← getitem tbl1 name;
  Ret (setitem tbl1 name (l ++ new_hexes)).

(** One round of [for symbol_name, hex_values in file_data["symbols"].items()]. *)
Definition merge_symbol (version_prefix : string) (aggregated_data : dict entry)
    (item : string * list string) : py (dict entry) :=
  let '(symbol_name, hex_values) := item in
  e ← getitem aggregated_data version_prefix;
  tbl ← merge_hexes (agg_symbols e) symbol_name hex_values;
  Ret (setitem aggregated_data version_prefix
         (Entry (agg_builds e) (agg_os e) tbl (agg_structs e))).

(** One round of [for member_name, hex_values in file_data["structs"].items()]. *)
Definition merge_struct (version_prefix : string) (aggregated_data : dict entry)
    (item : string * list string) : py (dict entry) :=
  let '(member_name, hex_values) := item in
  e ← getitem aggregated_data version_prefix;
  tbl ← merge_hexes (agg_structs e) member_name hex_values;
  Ret (setitem aggregated_data version_prefix
         (Entry (agg_builds e) (agg_os e) (agg_symbols e) tbl)).

(** Lines 126-134: create the entry or append the build. *)
Definition establish (aggregated_data : dict entry) (parsed_result : parsed)
  : py (dict entry) :=
  let vp := version_prefix parsed_result in
  if negb (dict_mem aggregated_data vp)
  then Ret (setitem aggregated_data vp
              (Entry [build parsed_result] (os parsed_result) [] []))
  else
    e ← getitem aggregated_data vp;
    Ret (setitem aggregated_data vp
           (Entry (agg_builds e ++ [build parsed_result]) (agg_os e)
                  (agg_symbols e) (agg_structs e))).

(** The body of the loop over the files found by [rglob] (lines 113-157). *)
Definition process_file (aggregated_data : dict entry) (info_file_path : file)
  : py (dict entry) :=
  parsed_result ← parse_info_file info_file_path;
  match parsed_result with
  | None => Ret aggregated_data
  | Some parsed_result =>
      let vp := version_prefix parsed_result in
      let file_data := data parsed_result in
      agg1 ← establish aggregated_data parsed_result;
      agg2 ← for_each (merge_symbol vp) (items (symbols file_data)) agg1;
      for_each (merge_struct vp) (items (structs file_data)) agg2
  end.

Definition process_root_directory (info_files : list file) : py (dict entry) :=
  for_each process_file info_files [].


(** ** Derived, exception-free descriptions of the loops' bodies

    Each of them is shown below to be what the corresponding body returns. *)

(** The list held under [name], [[]] when the name is new. *)
Definition held (d : dict (list string)) (name : string) : list string :=
  default [] (dict_get d name).

Definition symbol_step (d : dict (list string)) (line : string)
  : dict (list string) :=
  match split_ws line with
  | [hex_value; symbol_name] =>
      setitem d symbol_name (held d symbol_name ++ [hex_value])
  | _ => d
  end.

Definition struct_step (d : dict (list string)) (line : string)
  : dict (list string) :=
  match split_ws line with
  | hex_value :: _ :: tok :: more =>
      let member_name := List.last more tok in
      setitem d member_name (held d member_name ++ [hex_value])
  | _ => d
  end.

(** The stripped header cut at the leftmost separator: the text before it
    and the version token after it. Without a separator [split] returns
    the header alone, which is then both. *)
Definition header_cut (first_line : string) : string * string :=
  match find_sep " - " first_line with
  | Some (before, after) => (before, after)
  | None => (first_line, first_line)
  end.

(** The record of a readable file with at least one line. *)
Definition parse_lines (line0 : string) (rest : list string) : parsed :=
  let '(os, version_part) := header_cut (strip line0) in
  let version_parts := split_char "." version_part in
  Parsed (join "." (slice_init version_parts))
         (default "" (last version_parts))
         os
         (FileData (fold_left symbol_step (take 7 (content_lines rest)) [])
                   (fold_left struct_step (drop 7 (content_lines rest)) [])).

Definition merge_step (tbl : dict (list string)) (item : string * list string)
  : dict (list string) :=
  let cur := held tbl item.1 in
  setitem tbl item.1 (cur ++ filter (λ h, h ∉ cur) item.2).

Definition merge_tables (tbl : dict (list string))
    (its : list (string * list string)) : dict (list string) :=
  fold_left merge_step its tbl.

(** The entry of a version prefix after the file parsed to [r] was merged
    into [o], the entry before ([None]: no entry yet). *)
Definition merged_entry (o : option entry) (r : parsed) : entry :=
  match o with
  | None =>
      Entry [build r] (os r)
            (merge_tables [] (symbols (data r)))
            (merge_tables [] (structs (data r)))
  | Some e =>
      Entry (agg_builds e ++ [build r]) (agg_os e)
            (merge_tables (agg_symbols e) (symbols (data r)))
            (merge_tables (agg_structs e) (structs (data r)))
  end.

(** The accumulator after one file. *)
Definition process_step (agg : dict entry) (f : file) : dict entry :=
  match f with
  | Lines (line0 :: rest) =>
      let r := parse_lines line0 rest in
      setitem agg (version_prefix r)
              (merged_entry (dict_get agg (version_prefix r)) r)
  | _ => agg
  end.

(** The record of a file when it parses to the version prefix [vp]. *)
Definition parsed_to (vp : string) (f : file) : option parsed :=
  match parse_info_file f with
  | Ret (Some r) => if decide (version_prefix r = vp) then Some r else None
  | _ => None
  end.

(** The records of the files that parsed to [vp], in traversal order. *)
Definition contributing (vp : string) (files : list file) : list parsed :=
  omap (parsed_to vp) files.

(** ** Lists without duplicates *)

(** Every list of the table is free of duplicates. *)
Definition lists_nodup (tbl : dict (list string)) : Prop :=
  ∀ k l, dict_get tbl k = Some l → NoDup l.

(** The lists of a record are free of duplicates. *)
Definition record_nodup (r : parsed) : Prop :=
  Forall (λ it, NoDup it.2) (symbols (data r)) ∧
  Forall (λ it, NoDup it.2) (structs (data r)).

(** The lists of an entry are free of duplicates. *)
Definition entry_nodup (e : entry) : Prop :=
  lists_nodup (agg_symbols e) ∧ lists_nodup (agg_structs e).

(** ** The classification of content lines, in the words of the format

    The lines after the header are read in order with a budget of symbol
    lines: a blank line is dropped and leaves the budget as it is; another
    line is a symbol line while the budget lasts, and a struct line after. *)

Inductive line_kind : Type :=
  | SymbolLine
  | StructLine.

Global Instance line_kind_eq_dec : EqDecision line_kind.
Proof. solve_decision. Defined.

Fixpoint classify (budget : nat) (lines : list string)
  : list (line_kind * string) :=
  match lines with
  | [] => []
  | line :: lines' =>
      match strip line with
      | EmptyString => classify budget lines'
      | s =>
          match budget with
          | 0 => (StructLine, s) :: classify 0 lines'
          | S budget' => (SymbolLine, s) :: classify budget' lines'
          end
      end
  end.

(** The lines after the header that are not blank, stripped, in the order
    of the file. *)
Definition non_blank (rest : list string) : list string :=
  filter (λ s, s ≠ "") (strip <$> rest).

(** The lines of one kind, in order. *)
Definition lines_of (k : line_kind) (cl : list (line_kind * string))
  : list string :=
  snd <$> filter (λ p, p.1 = k) cl.

(** ** Notions used to state further properties *)

(** [list(d.keys())] *)
Definition keys {V} (d : dict V) : list string := d.*1.

(** [any(c.isspace() for c in s)] *)
Fixpoint has_space (s : string) : bool :=
  match s with
  | EmptyString => false
  | String c s' => isspace c || has_space s'
  end.

(** A token: a non-empty string without whitespace. *)
Definition token (s : string) : Prop := s ≠ "" ∧ has_space s = false.

(** Every name of the table is a token and holds a non-empty list of
    tokens. *)
Definition tokens_table (d : dict (list string)) : Prop :=
  Forall (λ it, token it.1 ∧ it.2 ≠ [] ∧ Forall token it.2) d.

(** The number of values a table holds, over all its names. *)
Definition total_values (d : dict (list string)) : nat :=
  sum_list_with (λ it, length it.2) d.

(** The number of builds an aggregate holds, over all its entries. *)
Definition total_builds (agg : dict entry) : nat :=
  sum_list_with (λ it, length (agg_builds it.2)) agg.

(** The records of the files of a tree that parse, in traversal order. *)
Definition parsed_files (files : list file) : list parsed :=
  omap (λ f, match parse_info_file f with
             | Ret (Some r) => Some r
             | _ => None
             end) files.

(** The distinct elements of a list in the order of their first
    occurrence. *)
Definition first_seen (l : list string) : list string :=
  fold_left (λ seen k, if decide (k ∈ seen) then seen else seen ++ [k]) l [].

(** The names of the entry are distinct, in both of its tables. *)
Definition entry_keys_nodup (e : entry) : Prop :=
  NoDup (keys (agg_symbols e)) ∧ NoDup (keys (agg_structs e)).

(** ** Sample files *)

Definition LF : string := String "010" EmptyString.

(** The lines [readlines] returns for a text whose lines end in a line
    feed: every line keeps its line feed, a last line without one is a
    line too. *)
Fixpoint text_lines (s : string) : list string :=
  match s with
  | EmptyString => []
  | String c s' =>
      if decide (c = "010"%char) then LF :: text_lines s'
      else
        match text_lines s' with
        | [] => [String c EmptyString]
        | l :: ls => String c l :: ls
        end
  end.

(** A file written as the set-up block of the script writes its samples:
    [f.write('\n'.join(content_lines) + '\n')]. *)
Definition written (content_lines : list string) : file :=
  Lines (text_lines (join LF content_lines +:+ LF)).

(** The two files of the example of the specification. *)
Definition file_a : file :=
  written ["Win - 1.2.100"; "0xAAAA Foo"; "0x1 S1"; "0x2 S2"; "0x3 S3";
         "0x4 S4"; "0x5 S5"; "0x6 S6"; "0x10 T member_x"].

Definition file_b : file :=
  written ["Win - 1.2.200"; "0xAAAA Foo"; "0xBBBB Foo"; "0x2 S2"; "0x3 S3";
         "0x4 S4"; "0x5 S5"; "0x6 S6"; "0x20 T member_x"].

(** A file whose header has no separator. *)
Definition file_no_sep : file :=
  written ["Windows 10 build 19041"; "0xAAAA Foo"].

(** A file in which two structures have a member of the same name at the
    same offset. *)
Definition file_dup : file :=
  written ["Win - 1.2.300"; "0xAAAA Foo"; "0x1 S1"; "0x2 S2"; "0x3 S3";
         "0x4 S4"; "0x5 S5"; "0x6 S6";
         "0x10 _EPROCESS Flags"; "0x10 _ETHREAD Flags"].

(** A file with the member of [file_dup] listed once. *)
Definition file_once : file :=
  written ["Win - 1.2.400"; "0xAAAA Foo"; "0x1 S1"; "0x2 S2"; "0x3 S3";
         "0x4 S4"; "0x5 S5"; "0x6 S6"; "0x10 _KPROCESS Flags"].

(** * Facts *)

(** ** The exception monad *)

Lemma for_each_app {S X} (body : S → X → py S) xs ys s :
  for_each body (xs ++ ys) s = (s' ← for_each body xs s; for_each body ys s').
Proof.
  revert s; induction xs as [|x xs IH]; intros s; simpl; [done|].
  destruct (body s x); simpl; [apply IH | done].
Qed.

(** A loop whose body never raises is a left fold. *)
Lemma for_each_fold {S X} (body : S → X → py S) (f : S → X → S) :
  (∀ s x, body s x = Ret (f s x)) →
  ∀ xs s, for_each body xs s = Ret (fold_left f xs s).
Proof.
  intros Hb xs; induction xs as [|x xs IH]; intros s; simpl; [done|].
  rewrite Hb; simpl. apply IH.
Qed.

(** ** Dictionaries *)

Section dict_facts.
Context {V : Type}.
Implicit Types (d : dict V) (k : string) (v : V).

Lemma dict_get_setitem d k v k' :
  dict_get (setitem d k v) k' = if decide (k = k') then Some v else dict_get d k'.
Proof.
  induction d as [|[k0 v0] d IH]; simpl.
  - by destruct (decide (k = k')).
  - destruct (decide (k0 = k)) as [->|Hne]; simpl.
    + by destruct (decide (k = k')).
    + rewrite IH. destruct (decide (k0 = k')) as [->|]; [|done].
      by rewrite decide_False by congruence.
Qed.

Lemma dict_get_setitem_eq d k v : dict_get (setitem d k v) k = Some v.
Proof. rewrite dict_get_setitem. by rewrite decide_True. Qed.

Lemma dict_get_setitem_ne d k v k' :
  k ≠ k' → dict_get (setitem d k v) k' = dict_get d k'.
Proof. intros. rewrite dict_get_setitem. by rewrite decide_False. Qed.

Lemma setitem_setitem d k v v' : setitem (setitem d k v) k v' = setitem d k v'.
Proof.
  induction d as [|[k0 v0] d IH]; simpl.
  - by rewrite decide_True.
  - destruct (decide (k0 = k)) as [->|Hne]; simpl.
    + by rewrite decide_True.
    + rewrite decide_False by done. by rewrite IH.
Qed.

Lemma getitem_setitem_eq d k v : getitem (setitem d k v) k = Ret v.
Proof. unfold getitem. by rewrite dict_get_setitem_eq. Qed.

Lemma getitem_Some d k v : dict_get d k = Some v → getitem d k = Ret v.
Proof. unfold getitem. by intros ->. Qed.
End dict_facts.

(** [if name not in d: d[name] = []] leaves [d[name]] readable. *)
Lemma ensure_key (d : dict (list string)) name :
  let d1 := if dict_mem d name then d else setitem d name [] in
  getitem d1 name = Ret (held d name) ∧
  ∀ l, setitem d1 name l = setitem d name l.
Proof.
  unfold dict_mem, held, getitem. destruct (dict_get d name) as [l|] eqn:E; simpl.
  - by rewrite E.
  - rewrite dict_get_setitem_eq. split; [done|]. intros; apply setitem_setitem.
Qed.

Lemma append_hex_ret d name hex_value :
  append_hex d name hex_value = Ret (setitem d name (held d name ++ [hex_value])).
Proof.
  unfold append_hex. destruct (ensure_key d name) as [H1 H2].
  rewrite H1; simpl. by rewrite H2.
Qed.

(** ** The parser raises for an undecodable file only, and never rejects a
    non-empty file *)

Lemma List_last_cons {A} (x d : A) l : List.last (x :: l) d = List.last l x.
Proof.
  revert x d; induction l as [|y l IH]; intros x d; [done|].
  change (List.last (x :: y :: l) d) with (List.last (y :: l) d).
  by rewrite !IH.
Qed.

Lemma last_cons_default {A} (x : A) l : last (x :: l) = Some (List.last l x).
Proof.
  revert x; induction l as [|y l IH]; intros x; [done|].
  change (last (x :: y :: l)) with (last (y :: l)). rewrite IH.
  by rewrite List_last_cons.
Qed.

Lemma symbol_line_ret d line : symbol_line d line = Ret (symbol_step d line).
Proof.
  unfold symbol_line, symbol_step.
  destruct (split_ws line) as [|a [|b [|c l]]]; simpl; try done.
  by rewrite append_hex_ret.
Qed.

Lemma struct_line_ret d line : struct_line d line = Ret (struct_step d line).
Proof.
  unfold struct_line, struct_step.
  destruct (split_ws line) as [|a [|b [|c l]]]; simpl; try done.
  unfold item_last. rewrite last_cons_default, !List_last_cons. simpl.
  by rewrite append_hex_ret.
Qed.

Lemma split_char_cons c s :
  split_char c s = (split_char_ne c s).1 :: (split_char_ne c s).2.
Proof. unfold split_char. by destruct (split_char_ne c s). Qed.

Lemma item_last_split_char c s :
  item_last (split_char c s) = Ret (default "" (last (split_char c s))).
Proof.
  rewrite split_char_cons. unfold item_last. by rewrite last_cons_default.
Qed.

(** The [except IndexError] branch of the header is never taken: [split]
    returns at least one part, so [[-1]] and [[0]] always succeed. *)
Lemma parse_header_ret first_line :
  parse_header first_line =
    Ret (Some (join "." (slice_init (split_char "." (header_cut first_line).2)),
               default "" (last (split_char "." (header_cut first_line).2)),
               (header_cut first_line).1)).
Proof.
  unfold parse_header, header_cut, split_once.
  destruct (find_sep " - " first_line) as [[before after]|]; simpl;
    rewrite item_last_split_char; done.
Qed.

Lemma parse_info_file_Lines line0 rest :
  parse_info_file (Lines (line0 :: rest)) = Ret (Some (parse_lines line0 rest)).
Proof.
  unfold parse_info_file, parse_lines; simpl.
  rewrite parse_header_ret; simpl.
  destruct (header_cut (strip line0)) as [o vt]; simpl.
  rewrite (for_each_fold _ _ symbol_line_ret); simpl.
  rewrite (for_each_fold _ _ struct_line_ret); simpl.
  done.
Qed.

Lemma parse_info_file_ret f :
  parse_info_file f =
    match f with
    | Undecodable => Raise UnicodeDecodeError
    | Lines (line0 :: rest) => Ret (Some (parse_lines line0 rest))
    | _ => Ret None
    end.
Proof.
  destruct f as [| |[|line0 rest]]; [done..|]. apply parse_info_file_Lines.
Qed.

(** The three outcomes of the parser: the failure signal for an unreadable
    file and for a file without lines, and for these only; a record for
    every file with a line, whatever its header; the exception of a read
    that fails to decode, which [except IOError] lets through. *)
Theorem parse_fails_iff :
  (∀ f, parse_info_file f = Ret None ↔ f = Unreadable ∨ f = Lines []) ∧
  (∀ line0 rest, ∃ r, parse_info_file (Lines (line0 :: rest)) = Ret (Some r)) ∧
  (∀ f e, parse_info_file f = Raise e ↔ f = Undecodable ∧ e = UnicodeDecodeError).
Proof.
  split_and!.
  - intros f. rewrite parse_info_file_ret. split.
    + destruct f as [| |[|line0 rest]]; [by left|done|by right|done].
    + by intros [-> | ->].
  - intros line0 rest. eexists. apply parse_info_file_Lines.
  - intros f e. rewrite parse_info_file_ret. split.
    + destruct f as [| |[|line0 rest]]; [done| |done..]. by intros [= <-].
    + by intros [-> ->].
Qed.

(** ** The aggregator raises for an undecodable file only *)

Lemma setitem_id {V} (d : dict V) k v : dict_get d k = Some v → setitem d k v = d.
Proof.
  induction d as [|[k0 v0] d IH]; simpl; [done|].
  destruct (decide (k0 = k)) as [->|Hne]; [by intros [= ->]|].
  intros H. by rewrite IH.
Qed.

Lemma merge_hexes_ret tbl name hex_values :
  merge_hexes tbl name hex_values = Ret (merge_step tbl (name, hex_values)).
Proof.
  unfold merge_hexes, merge_step. destruct (ensure_key tbl name) as [H1 H2].
  rewrite H1; simpl. rewrite H2. do 3 f_equal.
  apply list_filter_iff. intros h. by rewrite elem_of_list_to_set.
Qed.

Lemma merge_symbols_ret vp its : ∀ agg e,
  dict_get agg vp = Some e →
  for_each (merge_symbol vp) its agg =
    Ret (setitem agg vp (Entry (agg_builds e) (agg_os e)
                               (merge_tables (agg_symbols e) its)
                               (agg_structs e))).
Proof.
  induction its as [|[name hv] its IH]; intros agg e Hget; simpl.
  - f_equal. symmetry. apply setitem_id. by destruct e.
  - rewrite (getitem_Some _ _ _ Hget); simpl.
    rewrite merge_hexes_ret; simpl.
    erewrite IH by apply dict_get_setitem_eq. simpl.
    by rewrite setitem_setitem.
Qed.

Lemma merge_structs_ret vp its : ∀ agg e,
  dict_get agg vp = Some e →
  for_each (merge_struct vp) its agg =
    Ret (setitem agg vp (Entry (agg_builds e) (agg_os e) (agg_symbols e)
                               (merge_tables (agg_structs e) its))).
Proof.
  induction its as [|[name hv] its IH]; intros agg e Hget; simpl.
  - f_equal. symmetry. apply setitem_id. by destruct e.
  - rewrite (getitem_Some _ _ _ Hget); simpl.
    rewrite merge_hexes_ret; simpl.
    erewrite IH by apply dict_get_setitem_eq. simpl.
    by rewrite setitem_setitem.
Qed.

Lemma establish_ret agg r :
  establish agg r =
    Ret (setitem agg (version_prefix r)
           match dict_get agg (version_prefix r) with
           | None => Entry [build r] (os r) [] []
           | Some e => Entry (agg_builds e ++ [build r]) (agg_os e)
                             (agg_symbols e) (agg_structs e)
           end).
Proof.
  unfold establish, dict_mem, getitem.
  by destruct (dict_get agg (version_prefix r)).
Qed.

Lemma process_file_ret agg f :
  decodes f → process_file agg f = Ret (process_step agg f).
Proof.
  intros Hf. unfold process_file, process_step. rewrite parse_info_file_ret.
  destruct f as [| |[|line0 rest]]; [done..|]. simpl.
  set (r := parse_lines line0 rest). rewrite establish_ret; simpl.
  erewrite merge_symbols_ret by apply dict_get_setitem_eq. simpl.
  erewrite merge_structs_ret by apply dict_get_setitem_eq. simpl.
  rewrite !setitem_setitem. unfold items, merged_entry.
  by destruct (dict_get agg (version_prefix r)).
Qed.

Lemma process_file_undecodable agg :
  process_file agg Undecodable = Raise UnicodeDecodeError.
Proof. done. Qed.

Lemma for_each_process_file files : ∀ agg,
  Forall decodes files →
  for_each process_file files agg = Ret (fold_left process_step files agg).
Proof.
  induction files as [|f files IH]; intros agg Hfiles; [done|].
  apply Forall_cons in Hfiles as [Hf Hfiles]. cbn [for_each fold_left].
  rewrite process_file_ret by done. simpl. by apply IH.
Qed.

Lemma process_root_directory_ret files :
  Forall decodes files →
  process_root_directory files = Ret (fold_left process_step files []).
Proof. apply for_each_process_file. Qed.

Lemma all_decode_or_not files :
  Forall decodes files ∨ Exists (λ f, f = Undecodable) files.
Proof.
  induction files as [|f files [IH|IH]].
  - left. constructor.
  - destruct f; [left|right|left]; try (by constructor); by left.
  - right. by right.
Qed.

(** A file that does not decode stops the run with its exception. *)
Lemma for_each_process_file_raise files : ∀ agg,
  ¬ Forall decodes files →
  for_each process_file files agg = Raise UnicodeDecodeError.
Proof.
  induction files as [|f files IH]; intros agg Hfiles.
  - destruct Hfiles. constructor.
  - cbn [for_each].
    assert (f = Undecodable ∨ decodes f) as [->|Hf]
      by (destruct f; [by right|by left|by right]); [done|].
    rewrite process_file_ret by done. simpl. apply IH.
    intros Hall. apply Hfiles. by constructor.
Qed.

(** Entry by entry: the entry of [vp] after a run is the fold of
    [merged_entry] over the records that parsed to [vp]. *)
Lemma process_step_lookup agg f vp :
  dict_get (process_step agg f) vp =
    match parsed_to vp f with
    | Some r => Some (merged_entry (dict_get agg vp) r)
    | None => dict_get agg vp
    end.
Proof.
  unfold process_step, parsed_to. rewrite parse_info_file_ret.
  destruct f as [| |[|line0 rest]]; [done..|].
  rewrite dict_get_setitem. destruct (decide _) as [->|]; done.
Qed.

Lemma fold_process_step_lookup files : ∀ agg vp,
  dict_get (fold_left process_step files agg) vp =
    fold_left (λ o r, Some (merged_entry o r)) (contributing vp files)
              (dict_get agg vp).
Proof.
  induction files as [|f files IH]; intros agg vp; simpl; [done|].
  rewrite IH, process_step_lookup. unfold contributing; simpl.
  by destruct (parsed_to vp f).
Qed.

(** ** Splitting on a character and joining back *)

Lemma string_app_cons a s t : String a s +:+ t = String a (s +:+ t).
Proof. done. Qed.

Lemma string_app_nil_l t : "" +:+ t = t.
Proof. done. Qed.

Lemma string_app_assoc s t u : (s +:+ t) +:+ u = s +:+ (t +:+ u).
Proof.
  induction s as [|a s IH]; [done|].
  by rewrite !string_app_cons, IH.
Qed.

Lemma join_cons_cons sep x y l :
  join sep (x :: y :: l) = x +:+ sep +:+ join sep (y :: l).
Proof. done. Qed.

Lemma join_snoc sep l x :
  l ≠ [] → join sep (l ++ [x]) = join sep l +:+ sep +:+ x.
Proof.
  induction l as [|a [|b l] IH]; intros Hl; [done|done|].
  change ((a :: b :: l) ++ [x]) with (a :: b :: (l ++ [x])).
  rewrite !join_cons_cons.
  change (b :: l ++ [x]) with ((b :: l) ++ [x]).
  rewrite IH by done. by rewrite !string_app_assoc.
Qed.

(** [c.join(s.split(c)) == s] *)
Lemma join_split_char c s : join (String c "") (split_char c s) = s.
Proof.
  rewrite split_char_cons.
  induction s as [|a s IH]; [done|].
  cbn [split_char_ne].
  destruct (split_char_ne c s) as [h t]; cbn [fst snd] in *.
  destruct (decide (a = c)) as [->|Hne]; cbn [fst snd].
  - by rewrite join_cons_cons, IH.
  - destruct t as [|x t].
    + cbn [join] in *. by rewrite IH.
    + rewrite join_cons_cons in *. by rewrite string_app_cons, IH.
Qed.

(** A string that holds [c] splits into at least two parts. *)
Lemma split_char_ne_has c s :
  has_char c s = true → (split_char_ne c s).2 ≠ [].
Proof.
  induction s as [|a s IH]; simpl; [done|].
  destruct (split_char_ne c s) as [h t]; simpl in *.
  destruct (decide (a = c)); simpl; [done|]. exact IH.
Qed.

(** A string without [c] is the only part of its split. *)
Lemma split_char_ne_lacks c s :
  has_char c s = false → split_char_ne c s = (s, []).
Proof.
  induction s as [|a s IH]; simpl; [done|].
  destruct (decide (a = c)); [done|]. intros H. by rewrite (IH H).
Qed.

(** All parts but the last, [c], and the last part: the string again. *)
Lemma rejoin_split_char c s :
  has_char c s = true →
  join (String c "") (slice_init (split_char c s)) +:+ String c ""
    +:+ default "" (last (split_char c s)) = s.
Proof.
  intros Hc. rewrite <-(join_split_char c s) at 3.
  pose proof (split_char_ne_has c s Hc) as Ht.
  rewrite split_char_cons in *.
  destruct (split_char_ne c s) as [h t]; cbn [fst snd] in Ht |- *.
  rewrite last_cons_default; cbn [default from_option id].
  rewrite (app_removelast_last h (l := h :: t)) at 2 by done.
  rewrite List_last_cons.
  unfold slice_init. rewrite join_snoc; [done|].
  by destruct t.
Qed.

(** * The header *)

Lemma header_cut_sep first_line before token :
  find_sep " - " first_line = Some (before, token) →
  header_cut first_line = (before, token).
Proof. unfold header_cut. by intros ->. Qed.

(** C1: a file whose first line has no separator is to be rejected by the
    parser and to contribute nothing. The code does not do so: on
    [file_no_sep] the parser returns a record, with the whole header as
    [os] and as version token, and the aggregate gets an entry for it under
    the empty prefix; the well-formed [file_a] after it is aggregated as
    usual. *)
Theorem C1_header_without_separator_is_not_rejected :
  find_sep " - " (strip "Windows 10 build 19041") = None ∧
  parse_info_file file_no_sep =
    Ret (Some (Parsed "" "Windows 10 build 19041" "Windows 10 build 19041"
                      (FileData [("Foo", ["0xAAAA"])] []))) ∧
  process_root_directory [file_no_sep; file_a] =
    Ret [("", Entry ["Windows 10 build 19041"] "Windows 10 build 19041"
                    [("Foo", ["0xAAAA"])] []);
         ("1.2", Entry ["100"] "Win"
                    [("Foo", ["0xAAAA"]); ("S1", ["0x1"]); ("S2", ["0x2"]);
                     ("S3", ["0x3"]); ("S4", ["0x4"]); ("S5", ["0x5"]);
                     ("S6", ["0x6"])]
                    [("member_x", ["0x10"])])].
Proof. repeat split; vm_compute; reflexivity. Qed.

(** C3: for a header with a separator whose version token holds a period,
    the parsed prefix, a period and the parsed build give the version
    token back. *)
Theorem C3_prefix_period_build_is_version_token line0 rest before token :
  find_sep " - " (strip line0) = Some (before, token) →
  has_char "." token = true →
  ∃ r, parse_info_file (Lines (line0 :: rest)) = Ret (Some r) ∧
       version_prefix r +:+ "." +:+ build r = token.
Proof.
  intros Hsep Hdot. eexists; split; [apply parse_info_file_Lines|].
  unfold parse_lines. rewrite (header_cut_sep _ _ _ Hsep); simpl.
  by apply rejoin_split_char.
Qed.

Lemma C3_witness :
  ∃ r, parse_info_file (Lines ["Win - 1.2.100"; "0xAAAA Foo"]) = Ret (Some r) ∧
       version_prefix r +:+ "." +:+ build r = "1.2.100".
Proof.
  apply (C3_prefix_period_build_is_version_token
           "Win - 1.2.100" ["0xAAAA Foo"] "Win" "1.2.100"); reflexivity.
Defined.

(** Without a period the three pieces do not give the token back: the
    prefix is empty and a period is put in front of the token. *)
Lemma single_component_not_rebuilt line0 rest before token :
  find_sep " - " (strip line0) = Some (before, token) →
  has_char "." token = false →
  let r := parse_lines line0 rest in
  version_prefix r +:+ "." +:+ build r = String "." token.
Proof.
  intros Hsep Hdot. unfold parse_lines.
  rewrite (header_cut_sep _ _ _ Hsep); simpl.
  rewrite split_char_cons, (split_char_ne_lacks _ _ Hdot). done.
Qed.

(** C9: a header with a separator whose version token holds no period is
    accepted: the prefix is empty, the build is the whole token, and the
    file is merged into the entry of the empty prefix, whatever the
    accumulator holds; no other entry is touched. *)
Theorem C9_single_component_version line0 rest before token :
  find_sep " - " (strip line0) = Some (before, token) →
  has_char "." token = false →
  (∃ r, parse_info_file (Lines (line0 :: rest)) = Ret (Some r) ∧
        version_prefix r = "" ∧ build r = token ∧ os r = before) ∧
  ∀ agg, ∃ agg' e,
    process_file agg (Lines (line0 :: rest)) = Ret agg' ∧
    dict_get agg' "" = Some e ∧
    agg_builds e =
      match dict_get agg "" with Some e0 => agg_builds e0 | None => [] end
      ++ [token] ∧
    ∀ vp, vp ≠ "" → dict_get agg' vp = dict_get agg vp.
Proof.
  intros Hsep Hdot.
  assert (version_prefix (parse_lines line0 rest) = "" ∧
          build (parse_lines line0 rest) = token ∧
          os (parse_lines line0 rest) = before) as (Hv & Hb & Ho).
  { unfold parse_lines. rewrite (header_cut_sep _ _ _ Hsep); simpl.
    by rewrite split_char_cons, (split_char_ne_lacks _ _ Hdot). }
  split.
  - eexists; split; [apply parse_info_file_Lines|done].
  - intros agg. rewrite process_file_ret by done. unfold process_step. rewrite Hv.
    do 2 eexists; split; [done|]. split; [apply dict_get_setitem_eq|].
    split.
    + unfold merged_entry. rewrite Hb. by destruct (dict_get agg "").
    + intros vp Hne. by apply dict_get_setitem_ne.
Qed.

Lemma C9_witness :
  (∃ r, parse_info_file (Lines ["Win - 19041"; "0xAAAA Foo"]) = Ret (Some r) ∧
        version_prefix r = "" ∧ build r = "19041" ∧ os r = "Win") ∧
  ∀ agg, ∃ agg' e,
    process_file agg (Lines ["Win - 19041"; "0xAAAA Foo"]) = Ret agg' ∧
    dict_get agg' "" = Some e ∧
    agg_builds e =
      match dict_get agg "" with Some e0 => agg_builds e0 | None => [] end
      ++ ["19041"] ∧
    ∀ vp, vp ≠ "" → dict_get agg' vp = dict_get agg vp.
Proof.
  apply (C9_single_component_version "Win - 19041" ["0xAAAA Foo"] "Win" "19041");
    reflexivity.
Defined.

(** * Content lines *)

Lemma content_lines_cons line rest :
  content_lines (line :: rest) =
    match strip line with
    | EmptyString => content_lines rest
    | s => s :: content_lines rest
    end.
Proof. unfold content_lines; simpl. by destruct (strip line). Qed.

Lemma content_lines_app l1 l2 :
  content_lines (l1 ++ l2) = content_lines l1 ++ content_lines l2.
Proof. apply omap_app. Qed.

Lemma content_lines_blank pre blank post :
  strip blank = "" →
  content_lines (pre ++ blank :: post) = content_lines (pre ++ post).
Proof.
  intros Hb. rewrite !content_lines_app, content_lines_cons. by rewrite Hb.
Qed.

Lemma lines_of_cons_same k s cl : lines_of k ((k, s) :: cl) = s :: lines_of k cl.
Proof. unfold lines_of. rewrite filter_cons_True by done. done. Qed.

Lemma lines_of_cons_other k k' s cl :
  k' ≠ k → lines_of k ((k', s) :: cl) = lines_of k cl.
Proof. intros. unfold lines_of. by rewrite filter_cons_False. Qed.

(** The budgeted reading gives the slices the code takes. *)
Lemma classify_slices lines : ∀ budget,
  lines_of SymbolLine (classify budget lines) = take budget (content_lines lines) ∧
  lines_of StructLine (classify budget lines) = drop budget (content_lines lines).
Proof.
  induction lines as [|line lines IH]; intros budget.
  - by destruct budget.
  - rewrite content_lines_cons. cbn [classify].
    destruct (strip line) as [|a s]; [apply IH|].
    destruct budget as [|b].
    + destruct (IH 0) as [H1 H2].
      rewrite lines_of_cons_other, lines_of_cons_same by done.
      rewrite H1, H2. by rewrite !take_0, !drop_0.
    + destruct (IH b) as [H1 H2].
      rewrite lines_of_cons_same, lines_of_cons_other by done.
      by rewrite H1, H2.
Qed.

(** C6: the non-blank stripped lines after the header are classified by a
    budget of 7 symbol lines that blank lines do not use up: the record's
    symbols come from the lines classified as symbol lines, its structs
    from those classified as struct lines, each read in order by the
    loop of its kind; and a blank line put anywhere after the header
    leaves the result of the parser as it is. *)
Theorem C6_seven_non_blank_symbol_lines line0 rest :
  (∃ r, parse_info_file (Lines (line0 :: rest)) = Ret (Some r) ∧
        for_each symbol_line (lines_of SymbolLine (classify 7 rest)) []
          = Ret (symbols (data r)) ∧
        for_each struct_line (lines_of StructLine (classify 7 rest)) []
          = Ret (structs (data r))) ∧
  length (lines_of SymbolLine (classify 7 rest)) = min 7 (length (content_lines rest)) ∧
  ∀ pre post blank,
    rest = pre ++ post → strip blank = "" →
    parse_info_file (Lines (line0 :: pre ++ blank :: post)) =
    parse_info_file (Lines (line0 :: rest)).
Proof.
  destruct (classify_slices rest 7) as [Hs Ht]. split; [|split].
  - eexists; split; [apply parse_info_file_Lines|].
    rewrite Hs, Ht.
    rewrite (for_each_fold _ _ symbol_line_ret), (for_each_fold _ _ struct_line_ret).
    unfold parse_lines. by destruct (header_cut (strip line0)).
  - rewrite Hs, length_take. lia.
  - intros pre post blank -> Hb. rewrite !parse_info_file_Lines.
    unfold parse_lines. by rewrite (content_lines_blank _ _ _ Hb).
Qed.

Lemma C6_witness :
  parse_info_file (Lines ("Win - 1.2.100" :: ["0xAAAA Foo"] ++ "   " :: ["0x1 S1"])) =
  parse_info_file (Lines ("Win - 1.2.100" :: ["0xAAAA Foo"; "0x1 S1"])).
Proof.
  apply (C6_seven_non_blank_symbol_lines "Win - 1.2.100" ["0xAAAA Foo"; "0x1 S1"]);
    reflexivity.
Defined.

Lemma content_lines_non_blank rest : content_lines rest = non_blank rest.
Proof.
  unfold non_blank. induction rest as [|line rest IH]; [done|].
  rewrite content_lines_cons, IH. cbn [fmap list_fmap].
  destruct (strip line) as [|c s] eqn:E.
  - by rewrite filter_cons_False by (by intros H; apply H).
  - by rewrite filter_cons_True.
Qed.

(** C10: with fewer than 7 lines after the header that are not blank, the
    parser still returns a record: each of these lines, stripped and in
    order, went through the loop of the symbol lines, however many blank
    lines stand between them, and the structs of the record are empty. *)
Theorem C10_fewer_than_seven_content_lines line0 rest :
  length (non_blank rest) < 7 →
  ∃ r, parse_info_file (Lines (line0 :: rest)) = Ret (Some r) ∧
       for_each symbol_line (non_blank rest) [] = Ret (symbols (data r)) ∧
       lines_of SymbolLine (classify 7 rest) = non_blank rest ∧
       lines_of StructLine (classify 7 rest) = [] ∧
       structs (data r) = [].
Proof.
  intros Hlen. rewrite <-content_lines_non_blank in *.
  eexists; split; [apply parse_info_file_Lines|].
  destruct (classify_slices rest 7) as [-> ->].
  unfold parse_lines. destruct (header_cut (strip line0)) as [o vt]; simpl.
  rewrite take_ge, drop_ge by lia.
  by rewrite (for_each_fold _ _ symbol_line_ret).
Qed.

Lemma C10_witness :
  ∃ r, parse_info_file
         (Lines ["Win - 1.2.100"; "0xAAAA Foo"; ""; "  "; ""; ""; ""; "";
                 "0xBBBB Foo  "; "0x10 T member_x"]) = Ret (Some r) ∧
       for_each symbol_line
         (non_blank ["0xAAAA Foo"; ""; "  "; ""; ""; ""; "";
                     "0xBBBB Foo  "; "0x10 T member_x"]) []
         = Ret (symbols (data r)) ∧
       lines_of SymbolLine
         (classify 7 ["0xAAAA Foo"; ""; "  "; ""; ""; ""; "";
                      "0xBBBB Foo  "; "0x10 T member_x"])
         = non_blank ["0xAAAA Foo"; ""; "  "; ""; ""; ""; "";
                      "0xBBBB Foo  "; "0x10 T member_x"] ∧
       lines_of StructLine
         (classify 7 ["0xAAAA Foo"; ""; "  "; ""; ""; ""; "";
                      "0xBBBB Foo  "; "0x10 T member_x"]) = [] ∧
       structs (data r) = [].
Proof.
  apply (C10_fewer_than_seven_content_lines "Win - 1.2.100"
           ["0xAAAA Foo"; ""; "  "; ""; ""; ""; "";
            "0xBBBB Foo  "; "0x10 T member_x"]).
  vm_compute. lia.
Defined.

(** * Malformed content lines *)




Lemma for_each_skip {S X} (body : S → X → py S) pre x post s :
  (∀ s', body s' x = Ret s') →
  for_each body (pre ++ x :: post) s = for_each body (pre ++ post) s.
Proof.
  intros Hx. rewrite !for_each_app. destruct (for_each body pre s); simpl; [|done].
  by rewrite Hx.
Qed.



(** * Files that fail to parse *)

Lemma process_root_directory_skip f pre post :
  (∀ agg, process_file agg f = Ret agg) →
  process_root_directory (pre ++ f :: post) = process_root_directory (pre ++ post).
Proof. intros Hf. unfold process_root_directory. by apply for_each_skip. Qed.

(** C5: a file that fails to parse is to leave the accumulator as it is,
    and a header without separator is to be such a failure. The code does
    not reject that header: [file_no_sep], met after [file_a], is merged
    into the accumulator as a new entry under the empty prefix, and the run
    over the tree with it is not the run over the tree without it. *)
Theorem C5_malformed_header_file_changes_the_accumulator :
  find_sep " - " (strip "Windows 10 build 19041") = None ∧
  (∃ agg, process_root_directory [file_a] = Ret agg ∧
     process_file agg file_no_sep =
       Ret (agg ++ [("", Entry ["Windows 10 build 19041"]
                               "Windows 10 build 19041"
                               [("Foo", ["0xAAAA"])] [])])) ∧
  process_root_directory [file_a; file_no_sep] ≠ process_root_directory [file_a].
Proof.
  split_and!.
  - vm_compute; reflexivity.
  - exists [("1.2", Entry ["100"] "Win"
                      [("Foo", ["0xAAAA"]); ("S1", ["0x1"]); ("S2", ["0x2"]);
                       ("S3", ["0x3"]); ("S4", ["0x4"]); ("S5", ["0x5"]);
                       ("S6", ["0x6"])]
                      [("member_x", ["0x10"])])].
    split; vm_compute; reflexivity.
  - intros H. vm_compute in H. discriminate H.
Qed.

(** The files for which the parser does give the failure signal, the
    unreadable file and the file without lines, leave the accumulator as
    it is, whatever it holds, and the run over a tree with such a file is
    the run over the tree without it. *)
Theorem failed_file_changes_nothing :
  parse_info_file Unreadable = Ret None ∧
  parse_info_file (Lines []) = Ret None ∧
  (∀ f, parse_info_file f = Ret None →
     (∀ agg, process_file agg f = Ret agg) ∧
     (∀ pre post, process_root_directory (pre ++ f :: post) =
                  process_root_directory (pre ++ post))).
Proof.
  split; [done|]. split; [done|].
  intros f Hf.
  assert (∀ agg, process_file agg f = Ret agg) as Hskip.
  { intros agg. unfold process_file. by rewrite Hf. }
  split; [done|]. intros pre post. by apply process_root_directory_skip.
Qed.

Lemma failed_file_witness :
  (∀ agg, process_file agg Unreadable = Ret agg) ∧
  (∀ pre post, process_root_directory (pre ++ Unreadable :: post) =
               process_root_directory (pre ++ post)).
Proof.
  destruct failed_file_changes_nothing as (_ & _ & H).
  apply (H Unreadable). reflexivity.
Defined.

(** The run returns a map when every file of the tree decodes, and only
    then: a file that does not decode stops the run with its
    [UnicodeDecodeError], wherever it stands in the tree. *)
Theorem run_returns_iff_all_files_decode files :
  (Forall decodes files ∧ ∃ agg, process_root_directory files = Ret agg) ∨
  (Exists (λ f, f = Undecodable) files ∧
   process_root_directory files = Raise UnicodeDecodeError).
Proof.
  destruct (all_decode_or_not files) as [Hall|Hex].
  - left. split; [done|]. eexists. by apply process_root_directory_ret.
  - right. split; [done|]. apply for_each_process_file_raise. intros Hall.
    apply Exists_exists in Hex as (f & Hin & ->).
    rewrite Forall_forall in Hall. by apply (Hall Undecodable).
Qed.

(** * Builds and os of an entry *)

(** Merging records into an entry that exists appends their builds and
    keeps its os. *)
Lemma fold_merged_entry_Some rs : ∀ e0,
  ∃ e, fold_left (λ o r, Some (merged_entry o r)) rs (Some e0) = Some e ∧
       agg_builds e = agg_builds e0 ++ (build <$> rs) ∧
       agg_os e = agg_os e0.
Proof.
  induction rs as [|r rs IH]; intros e0; cbn [fold_left].
  - exists e0. by rewrite app_nil_r.
  - destruct (IH (merged_entry (Some e0) r)) as (e & -> & Hb & Ho).
    exists e. split; [done|]. rewrite Hb, Ho; simpl.
    by rewrite <-app_assoc.
Qed.

(** From no entry: there is an entry when a record is merged, its builds
    are those of the records and its os that of the first record. *)
Lemma fold_merged_entry_None rs :
  match fold_left (λ o r, Some (merged_entry o r)) rs None with
  | Some e => agg_builds e = build <$> rs ∧ Some (agg_os e) = os <$> head rs
  | None => rs = []
  end.
Proof.
  destruct rs as [|r rs]; cbn [fold_left]; [done|].
  destruct (fold_merged_entry_Some rs (merged_entry None r)) as (e & -> & Hb & Ho).
  by rewrite Hb, Ho.
Qed.

(** C4: over a tree whose files decode, the run returns an aggregate in
    which the builds of a version prefix are the builds of the files that
    parsed to it, one for each file and in the order of the files, so that
    their number is the number of these files; a prefix without entry is
    one no file parsed to. *)
Theorem C4_builds_one_per_contributing_file files :
  Forall decodes files →
  ∃ agg, process_root_directory files = Ret agg ∧
    ∀ vp,
      match dict_get agg vp with
      | Some e =>
          agg_builds e = build <$> contributing vp files ∧
          length (agg_builds e) = length (contributing vp files) ∧
          0 < length (contributing vp files)
      | None => contributing vp files = []
      end.
Proof.
  intros Hd. eexists; split; [by apply process_root_directory_ret|]. intros vp.
  rewrite fold_process_step_lookup; simpl.
  pose proof (fold_merged_entry_None (contributing vp files)) as H.
  destruct (fold_left _ _ _) as [e|]; [|done].
  destruct H as [Hb Ho]. rewrite Hb, length_fmap. split_and!; [done..|].
  destruct (contributing vp files); simpl in *; [done|lia].
Qed.

Lemma C4_witness :
  ∃ agg,
    process_root_directory
      [Lines ["Win - 1.2.100"]; Unreadable; Lines ["Win - 1.2.100"];
       Lines ["Win - 4.5.678"]] = Ret agg ∧
    ∀ vp,
      match dict_get agg vp with
      | Some e =>
          agg_builds e =
            build <$> contributing vp
              [Lines ["Win - 1.2.100"]; Unreadable; Lines ["Win - 1.2.100"];
               Lines ["Win - 4.5.678"]] ∧
          length (agg_builds e) =
            length (contributing vp
              [Lines ["Win - 1.2.100"]; Unreadable; Lines ["Win - 1.2.100"];
               Lines ["Win - 4.5.678"]]) ∧
          0 < length (contributing vp
              [Lines ["Win - 1.2.100"]; Unreadable; Lines ["Win - 1.2.100"];
               Lines ["Win - 4.5.678"]])
      | None =>
          contributing vp
            [Lines ["Win - 1.2.100"]; Unreadable; Lines ["Win - 1.2.100"];
             Lines ["Win - 4.5.678"]] = []
      end.
Proof.
  apply (C4_builds_one_per_contributing_file
           [Lines ["Win - 1.2.100"]; Unreadable; Lines ["Win - 1.2.100"];
            Lines ["Win - 4.5.678"]]).
  repeat constructor; discriminate.
Defined.

(** C8: a file that decodes, merged into an accumulator that has an entry
    for a version prefix, leaves the os of that entry as it is; and after
    a run over files that decode the os of every entry is the os of the
    first file that parsed to its prefix. *)
Theorem C8_os_of_first_file_is_kept :
  (∀ agg f vp e, decodes f → dict_get agg vp = Some e →
     ∃ agg' e', process_file agg f = Ret agg' ∧
                dict_get agg' vp = Some e' ∧ agg_os e' = agg_os e) ∧
  (∀ files, Forall decodes files →
     ∃ agg, process_root_directory files = Ret agg ∧
     ∀ vp, agg_os <$> dict_get agg vp = os <$> head (contributing vp files)).
Proof.
  split.
  - intros agg f vp e Hf Hget. rewrite process_file_ret by done.
    exists (process_step agg f). rewrite process_step_lookup, Hget.
    destruct (parsed_to vp f) as [r|]; eexists; split_and!; done.
  - intros files Hd. eexists; split; [by apply process_root_directory_ret|].
    intros vp. rewrite fold_process_step_lookup; simpl.
    pose proof (fold_merged_entry_None (contributing vp files)) as H.
    destruct (fold_left _ _ _) as [e|]; simpl.
    + by destruct H as [_ <-].
    + by rewrite H.
Qed.

Lemma C8_witness :
  (∃ agg' e', process_file [("1.2", Entry ["100"] "Win" [] [])]
                (Lines ["Linux - 1.2.200"; "0xAAAA Foo"]) = Ret agg' ∧
              dict_get agg' "1.2" = Some e' ∧ agg_os e' = "Win") ∧
  (∃ agg, process_root_directory
            [Lines ["Win - 1.2.100"]; Lines ["Linux - 1.2.200"]] = Ret agg ∧
     ∀ vp, agg_os <$> dict_get agg vp =
           os <$> head (contributing vp
                          [Lines ["Win - 1.2.100"]; Lines ["Linux - 1.2.200"]])).
Proof.
  destruct C8_os_of_first_file_is_kept as [H1 H2]. split.
  - apply (H1 [("1.2", Entry ["100"] "Win" [] [])]
              (Lines ["Linux - 1.2.200"; "0xAAAA Foo"]) "1.2"
              (Entry ["100"] "Win" [] [])); [discriminate|reflexivity].
  - apply H2. repeat constructor; discriminate.
Defined.

(** * Duplicates in the lists of an entry *)

(** C2: the list of hex values of a name in an entry is to be free of
    duplicates. The code filters the values of a file against the values
    the entry already holds, not against each other: [file_dup], which
    gives the offset [0x10] twice for the member [Flags], leaves it twice
    in the entry when the entry does not hold it yet, and leaves it once
    when [file_once] was merged before. *)
Theorem C2_duplicates_within_one_file_are_kept :
  (∃ agg e l, process_root_directory [file_dup] = Ret agg ∧
      dict_get agg "1.2" = Some e ∧
      dict_get (agg_structs e) "Flags" = Some l ∧
      l = ["0x10"; "0x10"] ∧ ¬ NoDup l) ∧
  (∃ agg e, process_root_directory [file_once; file_dup] = Ret agg ∧
      dict_get agg "1.2" = Some e ∧
      dict_get (agg_structs e) "Flags" = Some ["0x10"]).
Proof.
  split.
  - do 3 eexists. split_and!; [vm_compute; reflexivity..|].
    intros H. apply NoDup_cons in H as [H _]. apply H. left.
  - do 2 eexists. split_and!; vm_compute; reflexivity.
Qed.

(** What the code does ensure: values that come from lists free of
    duplicates stay free of duplicates in the entry, and the values an
    entry holds stay where they are when a file is merged. *)

Lemma merge_step_lookup tbl it k :
  dict_get (merge_step tbl it) k =
    if decide (it.1 = k)
    then Some (held tbl k ++ filter (λ h, h ∉ held tbl k) it.2)
    else dict_get tbl k.
Proof.
  unfold merge_step. rewrite dict_get_setitem.
  by destruct (decide (it.1 = k)) as [->|].
Qed.

Lemma held_nodup tbl k : lists_nodup tbl → NoDup (held tbl k).
Proof.
  intros H. unfold held. destruct (dict_get tbl k) as [l|] eqn:E; simpl.
  - by apply (H k).
  - constructor.
Qed.

Lemma merge_step_nodup tbl it :
  lists_nodup tbl → NoDup it.2 → lists_nodup (merge_step tbl it).
Proof.
  intros Ht Hi k l. rewrite merge_step_lookup.
  destruct (decide (it.1 = k)) as [_|_]; [|apply Ht].
  intros [= <-]. apply NoDup_app. split_and!.
  - by apply held_nodup.
  - intros x Hx [Hn _]%list_elem_of_filter. done.
  - by apply NoDup_filter.
Qed.

Lemma merge_tables_nodup its : ∀ tbl,
  lists_nodup tbl → Forall (λ it, NoDup it.2) its →
  lists_nodup (merge_tables tbl its).
Proof.
  induction its as [|it its IH]; intros tbl Ht Hits; [done|].
  apply Forall_cons in Hits as [Hit Hits]. cbn [merge_tables fold_left].
  apply IH; [|done]. by apply merge_step_nodup.
Qed.

Lemma merged_entry_nodup o r :
  from_option entry_nodup True o → record_nodup r →
  entry_nodup (merged_entry o r).
Proof.
  intros Ho [Hs Ht]. destruct o as [e|]; simpl in *.
  - destruct Ho. split; by apply merge_tables_nodup.
  - split; by apply merge_tables_nodup.
Qed.

Lemma contributing_parsed vp files r :
  r ∈ contributing vp files →
  ∃ f, f ∈ files ∧ parse_info_file f = Ret (Some r) ∧ version_prefix r = vp.
Proof.
  unfold contributing. rewrite list_elem_of_omap. intros (f & Hf & Hp).
  exists f. split; [done|]. unfold parsed_to in Hp.
  destruct (parse_info_file f) as [[r'|]|]; [|done..].
  destruct (decide _); [|done]. by injection Hp as ->.
Qed.

(** When the files decode and none gives a value twice under one name, no
    list of the aggregate holds a value twice. *)
Lemma aggregate_nodup files :
  Forall decodes files →
  (∀ f r, f ∈ files → parse_info_file f = Ret (Some r) → record_nodup r) →
  ∃ agg, process_root_directory files = Ret agg ∧
    ∀ vp e, dict_get agg vp = Some e → entry_nodup e.
Proof.
  intros Hd Hfiles. eexists; split; [by apply process_root_directory_ret|].
  intros vp e. rewrite fold_process_step_lookup; simpl.
  assert (∀ r, r ∈ contributing vp files → record_nodup r) as Hrs.
  { intros r (f & Hf & Hp & _)%contributing_parsed. by apply (Hfiles f). }
  revert Hrs. generalize (contributing vp files) as rs. intros rs Hrs.
  assert (from_option entry_nodup True (@None entry)) as Ho by done.
  revert Ho. generalize (@None entry) as o.
  induction rs as [|r rs IH]; intros o Ho; cbn [fold_left].
  - intros ->. exact Ho.
  - apply IH.
    + intros r' Hr'. apply Hrs. by right.
    + apply merged_entry_nodup; [done|]. apply Hrs. by left.
Qed.

(** Merging a file extends the list of a name at its end. *)
Lemma merge_tables_prefix its : ∀ tbl k,
  held tbl k `prefix_of` held (merge_tables tbl its) k.
Proof.
  induction its as [|it its IH]; intros tbl k; [done|].
  cbn [merge_tables fold_left]. etrans; [|apply IH].
  unfold held at 2. rewrite merge_step_lookup.
  destruct (decide (it.1 = k)); simpl; [by apply prefix_app_r|done].
Qed.

Lemma process_file_extends agg f vp e :
  decodes f →
  dict_get agg vp = Some e →
  ∃ agg' e', process_file agg f = Ret agg' ∧ dict_get agg' vp = Some e' ∧
    ∀ k, held (agg_symbols e) k `prefix_of` held (agg_symbols e') k ∧
         held (agg_structs e) k `prefix_of` held (agg_structs e') k.
Proof.
  intros Hf Hget. rewrite process_file_ret by done. exists (process_step agg f).
  rewrite process_step_lookup, Hget.
  destruct (parsed_to vp f) as [r|]; eexists; split_and!; try done.
  intros k; simpl. split; apply merge_tables_prefix.
Qed.

(** * Further properties of the parser and of the aggregator *)

(** ** Keys are distinct *)

Lemma keys_setitem {V} (d : dict V) k v :
  keys (setitem d k v) = if decide (k ∈ keys d) then keys d else keys d ++ [k].
Proof.
  unfold keys. induction d as [|[k0 v0] d IH].
  - destruct (decide (k ∈ [].*1)) as [Hin|_]; [|done].
    by apply elem_of_nil in Hin.
  - cbn [setitem]. destruct (decide (k0 = k)) as [->|Hne].
    + destruct (decide (k ∈ ((k, v0) :: d).*1)) as [_|Hn]; [done|].
      destruct Hn. by left.
    + cbn [fmap list_fmap fst]. rewrite IH.
      destruct (decide (k ∈ d.*1)) as [Hin|Hnin];
        destruct (decide (k ∈ k0 :: d.*1)) as [Hin'|Hnin']; try done.
      * destruct Hnin'. by right.
      * apply elem_of_cons in Hin' as [?|?]; [congruence|done].
Qed.

Lemma keys_setitem_nodup {V} (d : dict V) k v :
  NoDup (keys d) → NoDup (keys (setitem d k v)).
Proof.
  intros Hd. rewrite keys_setitem. destruct (decide (k ∈ keys d)); [done|].
  apply NoDup_app. split_and!; [done| |apply NoDup_singleton].
  intros x Hx ->%list_elem_of_singleton. done.
Qed.

Lemma dict_get_Some_keys {V} (d : dict V) k v : dict_get d k = Some v → k ∈ keys d.
Proof.
  unfold keys. induction d as [|[k0 v0] d IH]; simpl; [done|].
  destruct (decide (k0 = k)) as [->|]; [by left|]. right. by apply IH.
Qed.

Lemma dict_get_None_keys {V} (d : dict V) k : dict_get d k = None ↔ k ∉ keys d.
Proof.
  unfold keys. induction d as [|[k0 v0] d IH]; simpl.
  - split; [intros _; apply not_elem_of_nil|done].
  - rewrite not_elem_of_cons. destruct (decide (k0 = k)) as [->|Hne].
    + split; [done|]. by intros [? _].
    + rewrite IH. split; [by intros; split; [congruence|]|]. by intros [_ ?].
Qed.

Lemma fold_symbol_step_keys lines : ∀ d,
  NoDup (keys d) → NoDup (keys (fold_left symbol_step lines d)).
Proof.
  induction lines as [|line lines IH]; intros d Hd; [done|].
  cbn [fold_left]. apply IH. unfold symbol_step.
  destruct (split_ws line) as [|a [|b [|c l]]]; try done.
  by apply keys_setitem_nodup.
Qed.

Lemma fold_struct_step_keys lines : ∀ d,
  NoDup (keys d) → NoDup (keys (fold_left struct_step lines d)).
Proof.
  induction lines as [|line lines IH]; intros d Hd; [done|].
  cbn [fold_left]. apply IH. unfold struct_step.
  destruct (split_ws line) as [|a [|b [|c l]]]; try done.
  by apply keys_setitem_nodup.
Qed.

Lemma merge_tables_keys its : ∀ tbl,
  NoDup (keys tbl) → NoDup (keys (merge_tables tbl its)).
Proof.
  induction its as [|it its IH]; intros tbl Ht; [done|].
  cbn [merge_tables fold_left]. apply IH. by apply keys_setitem_nodup.
Qed.

Lemma merged_entry_keys o r :
  from_option entry_keys_nodup True o → entry_keys_nodup (merged_entry o r).
Proof.
  intros Ho. destruct o as [e|]; simpl in *.
  - destruct Ho. split; by apply merge_tables_keys.
  - split; apply merge_tables_keys; constructor.
Qed.

(** The names of a record are distinct: no name is listed twice in the
    symbols or in the structs of a parsed file. *)
Theorem record_keys_distinct line0 rest :
  ∃ r, parse_info_file (Lines (line0 :: rest)) = Ret (Some r) ∧
       NoDup (keys (symbols (data r))) ∧ NoDup (keys (structs (data r))).
Proof.
  eexists; split; [apply parse_info_file_Lines|].
  unfold parse_lines. destruct (header_cut (strip line0)); simpl.
  split; [apply fold_symbol_step_keys|apply fold_struct_step_keys]; constructor.
Qed.

(** The aggregate has one entry for a version prefix, and an entry has one
    list for a name. *)
Theorem aggregate_keys_distinct files :
  Forall decodes files →
  ∃ agg, process_root_directory files = Ret agg ∧
    NoDup (keys agg) ∧
    Forall (λ it, entry_keys_nodup it.2) agg.
Proof.
  intros Hd. eexists; split; [by apply process_root_directory_ret|]. clear Hd.
  assert (NoDup (keys (@nil (string * entry))) ∧
          Forall (λ it, entry_keys_nodup it.2) (@nil (string * entry))) as H0.
  { split; constructor. }
  revert H0. generalize (@nil (string * entry)) as agg.
  induction files as [|f files IH]; intros agg Hagg; [done|].
  cbn [fold_left]. apply IH. destruct Hagg as [Hk He].
  unfold process_step. destruct f as [| |[|line0 rest]]; [done..|].
  split; [by apply keys_setitem_nodup|].
  set (r := parse_lines line0 rest).
  assert (from_option entry_keys_nodup True (dict_get agg (version_prefix r))) as Ho.
  { destruct (dict_get agg (version_prefix r)) as [e|] eqn:E; simpl; [|done].
    clear -He E. induction agg as [|[k0 e0] agg IH]; simpl in *; [done|].
    apply Forall_cons in He as [H0 He].
    destruct (decide (k0 = version_prefix r)); [by injection E as <-|by apply IH]. }
  pose proof (merged_entry_keys _ r Ho) as Hm. revert Hm.
  generalize (merged_entry (dict_get agg (version_prefix r)) r) as e.
  generalize (version_prefix r) as k. clear -He.
  intros k e Hm. induction agg as [|[k0 e0] agg IH]; simpl.
  - by constructor.
  - apply Forall_cons in He as [H0 He].
    destruct (decide (k0 = k)); constructor; auto.
Qed.

(** ** What an entry holds *)

Lemma held_elem d k h :
  h ∈ held d k ↔ ∃ l, dict_get d k = Some l ∧ h ∈ l.
Proof.
  unfold held. destruct (dict_get d k) as [l|]; simpl.
  - split; [by exists l|]. by intros (l' & [= <-] & ?).
  - split; [by intros ?%elem_of_nil|]. by intros (l' & ? & ?).
Qed.

Lemma merge_step_held tbl it k h :
  h ∈ held (merge_step tbl it) k ↔ h ∈ held tbl k ∨ (it.1 = k ∧ h ∈ it.2).
Proof.
  unfold held at 1. rewrite merge_step_lookup.
  destruct (decide (it.1 = k)) as [Heq|Hne]; simpl.
  - rewrite elem_of_app, list_elem_of_filter.
    destruct (decide (h ∈ held tbl k)); tauto.
  - fold (held tbl k). tauto.
Qed.

Lemma merge_tables_held its : ∀ tbl k h,
  h ∈ held (merge_tables tbl its) k ↔
  h ∈ held tbl k ∨ ∃ l, (k, l) ∈ its ∧ h ∈ l.
Proof.
  induction its as [|[k0 l0] its IH]; intros tbl k h; cbn [merge_tables fold_left].
  - split; [by left|]. intros [?|(l & ?%elem_of_nil & _)]; done.
  - fold (merge_tables (merge_step tbl (k0, l0)) its).
    rewrite IH, merge_step_held. simpl. split.
    + intros [[?|[-> ?]]|(l & ? & ?)]; [by left| |].
      * right. exists l0. split; [by left|done].
      * right. exists l. split; [by right|done].
    + intros [?|(l & [[= -> ->]|?]%elem_of_cons & ?)]; [by left; left| |].
      * left. by right.
      * right. by exists l.
Qed.

(** The values of the entry built from the records [rs], for the table
    read by [tbl] in the entry and by [fld] in a record. *)
Lemma fold_merged_entry_held
    (tbl : entry → dict (list string)) (fld : parsed → dict (list string)) :
  (∀ o r, tbl (merged_entry o r) =
          merge_tables (from_option tbl [] o) (fld r)) →
  ∀ rs o k h,
    match fold_left (λ o r, Some (merged_entry o r)) rs o with
    | Some e =>
        h ∈ held (tbl e) k ↔
        h ∈ held (from_option tbl [] o) k ∨
        ∃ r l, r ∈ rs ∧ (k, l) ∈ fld r ∧ h ∈ l
    | None => o = None ∧ rs = []
    end.
Proof.
  intros Htbl rs. induction rs as [|r rs IH]; intros o k h; cbn [fold_left].
  - destruct o as [e|]; [|done]. simpl. split; [by left|].
    intros [?|(r & l & ?%elem_of_nil & _)]; done.
  - specialize (IH (Some (merged_entry o r)) k h).
    destruct (fold_left _ rs _) as [e|]; [|by destruct IH].
    rewrite IH. simpl. rewrite Htbl, merge_tables_held. split.
    + intros [[?|(l & ? & ?)]|(r' & l & ? & ? & ?)]; [by left| |].
      * right. exists r, l. split; [by left|done].
      * right. exists r', l. split; [by right|done].
    + intros [?|(r' & l & [->|?]%elem_of_cons & ? & ?)]; [by left; left| |].
      * left. right. by exists l.
      * right. by exists r', l.
Qed.

(** Nothing is lost and nothing is made up: an entry holds a value under a
    name exactly when a file that parsed to its prefix gives that value
    under that name, for symbols and for struct members. *)
Theorem aggregate_values_are_those_of_the_files files :
  Forall decodes files →
  ∃ agg, process_root_directory files = Ret agg ∧
    ∀ vp e, dict_get agg vp = Some e →
      ∀ name h,
        (h ∈ held (agg_symbols e) name ↔
           ∃ r l, r ∈ contributing vp files ∧
                  (name, l) ∈ items (symbols (data r)) ∧ h ∈ l) ∧
        (h ∈ held (agg_structs e) name ↔
           ∃ r l, r ∈ contributing vp files ∧
                  (name, l) ∈ items (structs (data r)) ∧ h ∈ l).
Proof.
  intros Hd. eexists; split; [by apply process_root_directory_ret|].
  intros vp e. rewrite fold_process_step_lookup; simpl. intros He name h.
  pose proof (fold_merged_entry_held agg_symbols (λ r, symbols (data r))) as Hs.
  pose proof (fold_merged_entry_held agg_structs (λ r, structs (data r))) as Ht.
  specialize (Hs ltac:(by intros [?|] ?) (contributing vp files) None name h).
  specialize (Ht ltac:(by intros [?|] ?) (contributing vp files) None name h).
  rewrite He in Hs, Ht. simpl in Hs, Ht. unfold items. split.
  - rewrite Hs. split; [|by right]. by intros [?%elem_of_nil|?].
  - rewrite Ht. split; [|by right]. by intros [?%elem_of_nil|?].
Qed.

Lemma aggregate_values_witness :
  ("0xAAAA" ∈ held [("Foo", ["0xAAAA"])] "Foo" ↔
     ∃ r l, r ∈ contributing "1.2" [Lines ["Win - 1.2.100"; "0xAAAA Foo"]] ∧
            ("Foo", l) ∈ items (symbols (data r)) ∧ "0xAAAA" ∈ l) ∧
  ("0xAAAA" ∈ held [] "Foo" ↔
     ∃ r l, r ∈ contributing "1.2" [Lines ["Win - 1.2.100"; "0xAAAA Foo"]] ∧
            ("Foo", l) ∈ items (structs (data r)) ∧ "0xAAAA" ∈ l).
Proof.
  destruct (aggregate_values_are_those_of_the_files
              [Lines ["Win - 1.2.100"; "0xAAAA Foo"]]) as (agg & Hrun & H).
  { repeat constructor; discriminate. }
  injection Hrun as <-.
  apply (H "1.2" (Entry ["100"] "Win" [("Foo", ["0xAAAA"])] [])).
  reflexivity.
Defined.

(** ** A file and the entries of other prefixes *)

(** A file changes the entry of its own version prefix only. *)
Theorem process_file_frame agg f r :
  parse_info_file f = Ret (Some r) →
  ∃ agg', process_file agg f = Ret agg' ∧
    is_Some (dict_get agg' (version_prefix r)) ∧
    ∀ vp, vp ≠ version_prefix r → dict_get agg' vp = dict_get agg vp.
Proof.
  intros Hp. rewrite parse_info_file_ret in Hp.
  destruct f as [| |[|line0 rest]]; [done..|]. injection Hp as <-.
  rewrite process_file_ret by done. eexists; split; [done|].
  unfold process_step.
  split; [by rewrite dict_get_setitem_eq|].
  intros vp Hne. by rewrite dict_get_setitem_ne.
Qed.

Lemma process_file_frame_witness :
  ∃ agg', process_file [("4.5", Entry ["678"] "Beta" [] [])]
            (Lines ["Win - 1.2.100"; "0xAAAA Foo"]) = Ret agg' ∧
    is_Some (dict_get agg' "1.2") ∧
    ∀ vp, vp ≠ "1.2" →
      dict_get agg' vp = dict_get [("4.5", Entry ["678"] "Beta" [] [])] vp.
Proof.
  apply (process_file_frame [("4.5", Entry ["678"] "Beta" [] [])]
           (Lines ["Win - 1.2.100"; "0xAAAA Foo"])
           (Parsed "1.2" "100" "Win" (FileData [("Foo", ["0xAAAA"])] []))).
  reflexivity.
Defined.

(** ** Merging what is already there *)

Lemma filter_none {A} (P : A → Prop) `{∀ x, Decision (P x)} (l : list A) :
  (∀ x, x ∈ l → ¬ P x) → filter P l = [].
Proof.
  induction l as [|x l IH]; intros Hl; [done|].
  rewrite filter_cons_False by (apply Hl; by left).
  apply IH. intros y Hy. apply Hl. by right.
Qed.

Lemma dict_get_held d k : is_Some (dict_get d k) → dict_get d k = Some (held d k).
Proof. unfold held. by intros [l ->]. Qed.

(** A table takes nothing from items whose names and values it holds. *)
Lemma merge_tables_absorb its : ∀ tbl,
  (∀ k l, (k, l) ∈ its →
     is_Some (dict_get tbl k) ∧ ∀ h, h ∈ l → h ∈ held tbl k) →
  merge_tables tbl its = tbl.
Proof.
  induction its as [|[k0 l0] its IH]; intros tbl Hits; [done|].
  cbn [merge_tables fold_left].
  assert (merge_step tbl (k0, l0) = tbl) as ->.
  { destruct (Hits k0 l0) as [Hk Hl]; [by left|].
    unfold merge_step; simpl. rewrite filter_none.
    - rewrite app_nil_r. by apply setitem_id, dict_get_held.
    - intros h Hh Hn. by apply Hn, Hl. }
  apply IH. intros k l Hkl. apply Hits. by right.
Qed.

Lemma merge_step_is_Some tbl it k :
  is_Some (dict_get tbl k) ∨ it.1 = k → is_Some (dict_get (merge_step tbl it) k).
Proof.
  rewrite merge_step_lookup.
  destruct (decide (it.1 = k)); [by eexists|]. by intros [?|?].
Qed.

Lemma merge_tables_is_Some its : ∀ tbl k,
  is_Some (dict_get tbl k) ∨ k ∈ its.*1 →
  is_Some (dict_get (merge_tables tbl its) k).
Proof.
  induction its as [|it its IH]; intros tbl k; cbn [merge_tables fold_left].
  - by intros [?|?%elem_of_nil].
  - intros H. apply IH. cbn [fmap list_fmap] in H.
    destruct H as [H|[->|H]%elem_of_cons].
    + left. apply merge_step_is_Some. by left.
    + left. apply merge_step_is_Some. by right.
    + by right.
Qed.

Lemma merge_tables_twice tbl its :
  merge_tables (merge_tables tbl its) its = merge_tables tbl its.
Proof.
  apply merge_tables_absorb. intros k l Hkl. split.
  - apply merge_tables_is_Some. right.
    apply list_elem_of_fmap. by exists (k, l).
  - intros h Hh. apply merge_tables_held. right. by exists l.
Qed.

(** A file found a second time adds its build once more and nothing else:
    the symbols, the structs and the os of the entry stay as the first
    merge left them. *)
Theorem second_merge_adds_only_the_build agg f r :
  parse_info_file f = Ret (Some r) →
  ∃ agg1 agg2 e1 e2,
    process_file agg f = Ret agg1 ∧
    process_file agg1 f = Ret agg2 ∧
    dict_get agg1 (version_prefix r) = Some e1 ∧
    dict_get agg2 (version_prefix r) = Some e2 ∧
    agg_symbols e2 = agg_symbols e1 ∧
    agg_structs e2 = agg_structs e1 ∧
    agg_os e2 = agg_os e1 ∧
    agg_builds e2 = agg_builds e1 ++ [build r].
Proof.
  intros Hp.
  exists (process_step agg f), (process_step (process_step agg f) f).
  rewrite parse_info_file_ret in Hp.
  destruct f as [| |[|line0 rest]]; [done..|]. injection Hp as Hr.
  rewrite !process_file_ret by done.
  unfold process_step. rewrite Hr.
  do 2 eexists. split; [done|]. split; [done|].
  rewrite !dict_get_setitem_eq. split; [done|]. split; [done|].
  destruct (dict_get agg (version_prefix r)) as [e|]; simpl;
    by rewrite !merge_tables_twice.
Qed.

Lemma second_merge_witness :
  ∃ agg1 agg2 e1 e2,
    process_file [] (Lines ["Win - 1.2.100"; "0xAAAA Foo"; "0xAAAA Foo"]) = Ret agg1 ∧
    process_file agg1 (Lines ["Win - 1.2.100"; "0xAAAA Foo"; "0xAAAA Foo"]) = Ret agg2 ∧
    dict_get agg1 "1.2" = Some e1 ∧
    dict_get agg2 "1.2" = Some e2 ∧
    agg_symbols e2 = agg_symbols e1 ∧
    agg_structs e2 = agg_structs e1 ∧
    agg_os e2 = agg_os e1 ∧
    agg_builds e2 = agg_builds e1 ++ ["100"].
Proof.
  apply (second_merge_adds_only_the_build []
           (Lines ["Win - 1.2.100"; "0xAAAA Foo"; "0xAAAA Foo"])
           (Parsed "1.2" "100" "Win"
                   (FileData [("Foo", ["0xAAAA"; "0xAAAA"])] []))).
  reflexivity.
Defined.

(** ** What a record holds *)

Lemma split_ws_go_tokens s :
  has_space (split_ws_go s).1 = false ∧ Forall token (split_ws_go s).2.
Proof.
  induction s as [|a s [IH1 IH2]]; [by split|]. cbn [split_ws_go].
  destruct (split_ws_go s) as [h t]; cbn [fst snd] in *.
  destruct (isspace a) eqn:Ha; cbn [fst snd].
  - split; [done|]. destruct h as [|b h]; [done|].
    constructor; [by split|done].
  - split; [|done]. simpl. by rewrite Ha.
Qed.

(** The parts [line.split()] returns are tokens. *)
Lemma split_ws_tokens s : Forall token (split_ws s).
Proof.
  unfold split_ws. destruct (split_ws_go_tokens s) as [H1 H2].
  destruct (split_ws_go s) as [h t]; cbn [fst snd] in *.
  destruct h as [|b h]; [done|]. constructor; [by split|done].
Qed.

Lemma tokens_table_held d k : tokens_table d → Forall token (held d k).
Proof.
  unfold tokens_table, held. induction d as [|[k0 v0] d IH]; simpl; [done|].
  intros [H0 Hd]%Forall_cons. destruct (decide (k0 = k)); [apply H0|by apply IH].
Qed.

Lemma Forall_setitem {V} (P : string * V → Prop) d k v :
  Forall P d → P (k, v) → Forall P (setitem d k v).
Proof.
  intros Hd Hkv. induction d as [|[k0 v0] d IH]; simpl.
  - by constructor.
  - apply Forall_cons in Hd as [H0 Hd].
    destruct (decide (k0 = k)); constructor; auto.
Qed.

Lemma tokens_table_append d name hex_value :
  tokens_table d → token name → token hex_value →
  tokens_table (setitem d name (held d name ++ [hex_value])).
Proof.
  intros Hd Hn Hh. apply Forall_setitem; [done|]. simpl. split_and!; [done| |].
  - by destruct (held d name).
  - apply Forall_app. split; [by apply tokens_table_held|by constructor].
Qed.

Lemma symbol_step_tokens d line : tokens_table d → tokens_table (symbol_step d line).
Proof.
  intros Hd. unfold symbol_step. pose proof (split_ws_tokens line) as Ht.
  destruct (split_ws line) as [|a [|b [|c l]]]; try done.
  apply Forall_cons in Ht as [Ha [Hb _]%Forall_cons].
  by apply tokens_table_append.
Qed.

Lemma struct_step_tokens d line : tokens_table d → tokens_table (struct_step d line).
Proof.
  intros Hd. unfold struct_step. pose proof (split_ws_tokens line) as Ht.
  destruct (split_ws line) as [|a [|b [|c l]]]; try done.
  apply Forall_cons in Ht as [Ha [_ Hl]%Forall_cons].
  apply tokens_table_append; [done| |done].
  rewrite Forall_forall in Hl. apply Hl.
  apply last_Some_elem_of. apply last_cons_default.
Qed.

Lemma fold_left_invariant {S X} (I : S → Prop) (f : S → X → S) :
  (∀ s x, I s → I (f s x)) → ∀ xs s, I s → I (fold_left f xs s).
Proof.
  intros Hf xs. induction xs as [|x xs IH]; intros s Hs; [done|].
  cbn [fold_left]. by apply IH, Hf.
Qed.

(** The names and the values of a record are tokens, that is non-empty
    and free of whitespace, and every name of a record has a value. *)
Theorem record_holds_tokens line0 rest :
  ∃ r, parse_info_file (Lines (line0 :: rest)) = Ret (Some r) ∧
       tokens_table (symbols (data r)) ∧ tokens_table (structs (data r)).
Proof.
  eexists; split; [apply parse_info_file_Lines|].
  unfold parse_lines. destruct (header_cut (strip line0)); simpl.
  split; apply fold_left_invariant;
    auto using symbol_step_tokens, struct_step_tokens; constructor.
Qed.

Lemma total_values_append d k h :
  total_values (setitem d k (held d k ++ [h])) = S (total_values d).
Proof.
  unfold total_values, held. induction d as [|[k0 v0] d IH]; simpl; [done|].
  destruct (decide (k0 = k)); simpl.
  - rewrite length_app; simpl. lia.
  - rewrite IH. lia.
Qed.

Lemma symbol_step_total d line :
  total_values (symbol_step d line) ≤ S (total_values d).
Proof.
  unfold symbol_step. destruct (split_ws line) as [|a [|b [|c l]]]; try lia.
  rewrite total_values_append. lia.
Qed.

Lemma struct_step_total d line :
  total_values (struct_step d line) ≤ S (total_values d).
Proof.
  unfold struct_step. destruct (split_ws line) as [|a [|b [|c l]]]; try lia.
  rewrite total_values_append. lia.
Qed.

Lemma fold_left_total (f : dict (list string) → string → dict (list string)) :
  (∀ d line, total_values (f d line) ≤ S (total_values d)) →
  ∀ lines d, total_values (fold_left f lines d) ≤ total_values d + length lines.
Proof.
  intros Hf lines. induction lines as [|line lines IH]; intros d; simpl; [lia|].
  specialize (IH (f d line)). specialize (Hf d line). lia.
Qed.

(** A record holds at most 7 symbol values, whatever the length of the
    file, and no more values than the file has content lines: the struct
    values are at most as many as the content lines after the seventh. *)
Theorem record_sizes line0 rest :
  ∃ r, parse_info_file (Lines (line0 :: rest)) = Ret (Some r) ∧
       total_values (symbols (data r)) ≤ min 7 (length (content_lines rest)) ∧
       total_values (structs (data r)) ≤ length (content_lines rest) - 7.
Proof.
  eexists; split; [apply parse_info_file_Lines|].
  unfold parse_lines. destruct (header_cut (strip line0)).
  cbn [data symbols structs].
  pose proof (fold_left_total _ symbol_step_total
                (take 7 (content_lines rest)) []) as Hs.
  pose proof (fold_left_total _ struct_step_total
                (drop 7 (content_lines rest)) []) as Ht.
  rewrite length_take in Hs. rewrite length_drop in Ht.
  change (total_values []) with 0 in *. lia.
Qed.

(** ** The build *)

Lemma split_char_ne_parts c s :
  has_char c (split_char_ne c s).1 = false ∧
  Forall (λ p, has_char c p = false) (split_char_ne c s).2.
Proof.
  induction s as [|a s [IH1 IH2]]; [by split|]. cbn [split_char_ne].
  destruct (split_char_ne c s) as [h t]; cbn [fst snd] in *.
  destruct (decide (a = c)) as [->|Hne]; cbn [fst snd].
  - split; [done|]. by constructor.
  - split; [|done]. simpl. by rewrite decide_False.
Qed.

(** The build of a record holds no period, whatever the header is. *)
Theorem build_has_no_period line0 rest :
  ∃ r, parse_info_file (Lines (line0 :: rest)) = Ret (Some r) ∧
       has_char "." (build r) = false.
Proof.
  eexists; split; [apply parse_info_file_Lines|].
  unfold parse_lines. destruct (header_cut (strip line0)) as [o vt]; simpl.
  rewrite split_char_cons, last_cons_default; simpl.
  destruct (split_char_ne_parts "." vt) as [H1 H2].
  assert (Forall (λ p, has_char "." p = false)
            ((split_char_ne "." vt).1 :: (split_char_ne "." vt).2)) as Hall
    by by constructor.
  rewrite Forall_forall in Hall. apply Hall.
  apply last_Some_elem_of, last_cons_default.
Qed.

(** ** The os and the header *)

Lemma strip_prefix_spec p : ∀ s rest,
  strip_prefix p s = Some rest → s = p +:+ rest.
Proof.
  induction p as [|a p IH]; intros s rest; simpl.
  - by intros [= ->].
  - destruct s as [|b s]; [done|].
    destruct (decide (a = b)) as [->|]; [|done].
    intros H. by rewrite string_app_cons, <-(IH _ _ H).
Qed.


Lemma find_sep_unfold sep s :
  find_sep sep s =
    match strip_prefix sep s with
    | Some rest => Some (EmptyString, rest)
    | None =>
        match s with
        | EmptyString => None
        | String c s' =>
            match find_sep sep s' with
            | Some (before, after) => Some (String c before, after)
            | None => None
            end
        end
    end.
Proof. by destruct s. Qed.

(** The string is the text before the separator, the separator and the
    text after it. *)
Lemma find_sep_spec sep s : ∀ a b,
  find_sep sep s = Some (a, b) → s = a +:+ sep +:+ b.
Proof.
  induction s as [|c s IH]; intros a b; rewrite find_sep_unfold.
  - destruct (strip_prefix sep "") as [rest|] eqn:E; [|done].
    intros [= <- <-]. rewrite string_app_nil_l. by apply strip_prefix_spec.
  - destruct (strip_prefix sep (String c s)) as [rest|] eqn:E.
    + intros [= <- <-]. rewrite string_app_nil_l. by apply strip_prefix_spec.
    + destruct (find_sep sep s) as [[a' b']|]; [|done].
      intros [= <- <-]. by rewrite string_app_cons, <-(IH a' b').
Qed.



(** A header with a separator and a period after it is given back by the
    fields of the record: the os, the separator, the prefix, a period and
    the build make the stripped first line. *)
Theorem header_rebuilt_from_record line0 rest before token :
  find_sep " - " (strip line0) = Some (before, token) →
  has_char "." token = true →
  ∃ r, parse_info_file (Lines (line0 :: rest)) = Ret (Some r) ∧
       os r +:+ " - " +:+ version_prefix r +:+ "." +:+ build r = strip line0.
Proof.
  intros Hsep Hdot. eexists; split; [apply parse_info_file_Lines|].
  unfold parse_lines. rewrite (header_cut_sep _ _ _ Hsep); simpl.
  rewrite (rejoin_split_char "." token Hdot).
  symmetry. by apply find_sep_spec.
Qed.

Lemma header_rebuilt_witness :
  ∃ r, parse_info_file (Lines ["  Win - 1.2.100 "; "0xAAAA Foo"]) = Ret (Some r) ∧
       os r +:+ " - " +:+ version_prefix r +:+ "." +:+ build r
         = strip "  Win - 1.2.100 ".
Proof.
  apply (header_rebuilt_from_record "  Win - 1.2.100 " ["0xAAAA Foo"]
           "Win" "1.2.100"); reflexivity.
Defined.

(** ** Whitespace around the lines *)

Lemma starts_clean_lstrip s :
  match lstrip s with EmptyString => True | String c _ => isspace c = false end.
Proof.
  induction s as [|c s IH]; simpl; [done|].
  destruct (isspace c) eqn:E; [done|]. by rewrite E.
Qed.

Lemma rstrip_cons c s :
  rstrip (String c s) =
    match rstrip s with
    | EmptyString => if isspace c then EmptyString else String c EmptyString
    | r => String c r
    end.
Proof. done. Qed.

Lemma rstrip_idemp s : rstrip (rstrip s) = rstrip s.
Proof.
  induction s as [|c s IH]; [done|]. rewrite rstrip_cons.
  destruct (rstrip s) as [|b r] eqn:E.
  - destruct (isspace c) eqn:Ec; [done|]. simpl. by rewrite Ec.
  - by rewrite rstrip_cons, IH.
Qed.

Lemma rstrip_starts_clean s :
  match s with EmptyString => True | String c _ => isspace c = false end →
  lstrip (rstrip s) = rstrip s.
Proof.
  destruct s as [|c s]; [done|]. intros Hc. rewrite rstrip_cons.
  destruct (rstrip s); rewrite ?Hc; simpl; by rewrite Hc.
Qed.

(** [s.strip().strip() == s.strip()] *)
Lemma strip_idemp s : strip (strip s) = strip s.
Proof.
  unfold strip. rewrite rstrip_starts_clean by apply starts_clean_lstrip.
  apply rstrip_idemp.
Qed.

Lemma content_lines_strip_eq rest rest' :
  Forall2 (λ a b, strip a = strip b) rest rest' →
  content_lines rest = content_lines rest'.
Proof.
  induction 1 as [|a b rest rest' Hab _ IH]; [done|].
  by rewrite !content_lines_cons, Hab, IH.
Qed.

(** The parser reads a line through [strip] only: two files whose lines
    are the same up to the whitespace around them parse to the same
    result, and so does a file and the file of its stripped lines. *)
Theorem whitespace_around_lines_is_ignored :
  (∀ lines lines',
     Forall2 (λ a b, strip a = strip b) lines lines' →
     parse_info_file (Lines lines) = parse_info_file (Lines lines')) ∧
  (∀ lines, parse_info_file (Lines (strip <$> lines)) = parse_info_file (Lines lines)).
Proof.
  assert (∀ lines lines',
     Forall2 (λ a b, strip a = strip b) lines lines' →
     parse_info_file (Lines lines) = parse_info_file (Lines lines')) as H.
  { intros lines lines' [|a b rest rest' Hab Hrest]; [done|].
    rewrite !parse_info_file_Lines. unfold parse_lines.
    by rewrite Hab, (content_lines_strip_eq _ _ Hrest). }
  split; [done|]. intros lines. apply H.
  induction lines as [|a lines IH]; constructor; [apply strip_idemp|done].
Qed.

Lemma whitespace_around_lines_witness :
  parse_info_file (Lines ["Win - 1.2.100"; "0xAAAA Foo"]) =
  parse_info_file (Lines ["  Win - 1.2.100  "; "   0xAAAA Foo "]).
Proof.
  destruct whitespace_around_lines_is_ignored as [H _].
  apply H. repeat constructor.
Defined.

(** ** The entries of the aggregate and the files of the tree *)

Lemma parsed_files_cons f files :
  parsed_files (f :: files) =
    match f with
    | Lines (line0 :: rest) => parse_lines line0 rest :: parsed_files files
    | _ => parsed_files files
    end.
Proof.
  unfold parsed_files; cbn [omap list_omap]. rewrite parse_info_file_ret.
  by destruct f as [| |[|line0 rest]].
Qed.

Lemma keys_fold_process_step files : ∀ agg,
  keys (fold_left process_step files agg) =
    fold_left (λ seen k, if decide (k ∈ seen) then seen else seen ++ [k])
              (version_prefix <$> parsed_files files) (keys agg).
Proof.
  induction files as [|f files IH]; intros agg; [done|].
  cbn [fold_left]. rewrite IH, parsed_files_cons.
  destruct f as [| |[|line0 rest]]; [done..|].
  cbn [fmap list_fmap fold_left process_step]. by rewrite keys_setitem.
Qed.

(** The version prefixes of the aggregate come in the order in which the
    traversal first meets a file of each: the keys are the distinct
    prefixes of the files that parse, in the order of their first file. *)
Theorem aggregate_keys_in_order_of_first_file files :
  Forall decodes files →
  ∃ agg, process_root_directory files = Ret agg ∧
         keys agg = first_seen (version_prefix <$> parsed_files files).
Proof.
  intros Hd. eexists; split; [by apply process_root_directory_ret|].
  apply keys_fold_process_step.
Qed.

Lemma total_builds_setitem agg k e :
  total_builds (setitem agg k e)
    + from_option (λ e0, length (agg_builds e0)) 0 (dict_get agg k)
  = total_builds agg + length (agg_builds e).
Proof.
  unfold total_builds. induction agg as [|[k0 e0] agg IH]; simpl; [lia|].
  destruct (decide (k0 = k)); simpl; lia.
Qed.

Lemma merged_entry_builds o r :
  length (agg_builds (merged_entry o r)) =
    S (from_option (λ e0, length (agg_builds e0)) 0 o).
Proof. destruct o as [e|]; simpl; [|done]. rewrite length_app; simpl. lia. Qed.

Lemma total_builds_fold files : ∀ agg,
  total_builds (fold_left process_step files agg) =
    total_builds agg + length (parsed_files files).
Proof.
  induction files as [|f files IH]; intros agg; [simpl; lia|].
  cbn [fold_left]. rewrite IH, parsed_files_cons.
  destruct f as [| |[|line0 rest]]; [done..|]. cbn [process_step length].
  set (r := parse_lines line0 rest).
  pose proof (total_builds_setitem agg (version_prefix r)
                (merged_entry (dict_get agg (version_prefix r)) r)) as H.
  rewrite merged_entry_builds in H. lia.
Qed.

(** Every file that parses is counted once: over all its entries the
    aggregate holds as many builds as there are files that parse. *)
Theorem aggregate_counts_every_parsed_file files :
  Forall decodes files →
  ∃ agg, process_root_directory files = Ret agg ∧
         total_builds agg = length (parsed_files files).
Proof.
  intros Hd. eexists; split; [by apply process_root_directory_ret|].
  by rewrite total_builds_fold.
Qed.

(** The aggregate is empty exactly when every file of the tree is
    unreadable or without lines. *)
Theorem aggregate_empty_iff files :
  process_root_directory files = Ret [] ↔
  Forall (λ f, f = Unreadable ∨ f = Lines []) files.
Proof.
  split.
  - intros Hrun. destruct (all_decode_or_not files) as [Hd|Hex].
    2:{ unfold process_root_directory in Hrun.
        rewrite for_each_process_file_raise in Hrun; [done|].
        intros Hall. apply Exists_exists in Hex as (f & Hin & ->).
        rewrite Forall_forall in Hall. by apply (Hall Undecodable). }
    rewrite process_root_directory_ret in Hrun by done.
    injection Hrun as Hagg. pose proof (total_builds_fold files []) as Ht.
    rewrite Hagg in Ht. change (total_builds []) with 0 in Ht.
    clear Hagg. induction files as [|f files IH]; [done|].
    apply Forall_cons in Hd as [Hf Hd]. rewrite parsed_files_cons in Ht.
    destruct f as [| |[|line0 rest]]; simpl in Ht; [|done| |lia].
    + constructor; [by left|by apply IH].
    + constructor; [by right|by apply IH].
  - intros Hall. rewrite process_root_directory_ret.
    + f_equal. generalize (@nil (string * entry)) as agg.
      induction Hall as [|f files [-> | ->] _ IH]; intros agg; [done|apply IH..].
    + eapply Forall_impl; [exact Hall|]. by intros f [-> | ->].
Qed.

Lemma aggregate_nodup_witness :
  ∃ agg, process_root_directory [file_a; file_b] = Ret agg ∧
    ∀ vp e, dict_get agg vp = Some e → entry_nodup e.
Proof.
  apply (aggregate_nodup [file_a; file_b]).
  - repeat constructor; discriminate.
  - intros f r [->|Hf]%elem_of_cons;
      [|apply list_elem_of_singleton in Hf as ->];
      intros [= <-]; unfold record_nodup;
      apply (bool_decide_unpack _); vm_compute; exact I.
Defined.

Lemma process_file_extends_witness :
  ∃ agg' e',
    process_file [("1.2", Entry ["100"] "Win" [("Foo", ["0xAAAA"])] [])]
      (Lines ["Win - 1.2.200"; "0xBBBB Foo"]) = Ret agg' ∧
    dict_get agg' "1.2" = Some e' ∧
    ∀ k, held [("Foo", ["0xAAAA"])] k `prefix_of` held (agg_symbols e') k ∧
         held [] k `prefix_of` held (agg_structs e') k.
Proof.
  apply (process_file_extends
           [("1.2", Entry ["100"] "Win" [("Foo", ["0xAAAA"])] [])]
           (Lines ["Win - 1.2.200"; "0xBBBB Foo"]) "1.2"
           (Entry ["100"] "Win" [("Foo", ["0xAAAA"])] []));
    [discriminate|reflexivity].
Defined.

Lemma aggregate_keys_distinct_witness :
  ∃ agg, process_root_directory [file_a; file_no_sep; file_b] = Ret agg ∧
    NoDup (keys agg) ∧
    Forall (λ it, entry_keys_nodup it.2) agg.
Proof.
  apply (aggregate_keys_distinct [file_a; file_no_sep; file_b]).
  repeat constructor; discriminate.
Defined.

Lemma aggregate_keys_in_order_witness :
  ∃ agg, process_root_directory [file_a; file_no_sep; file_b] = Ret agg ∧
         keys agg = first_seen (version_prefix <$>
                                  parsed_files [file_a; file_no_sep; file_b]).
Proof.
  apply (aggregate_keys_in_order_of_first_file [file_a; file_no_sep; file_b]).
  repeat constructor; discriminate.
Defined.

Lemma aggregate_counts_witness :
  ∃ agg, process_root_directory [file_a; Unreadable; file_b; Lines []] = Ret agg ∧
         total_builds agg = length (parsed_files [file_a; Unreadable; file_b; Lines []]).
Proof.
  apply (aggregate_counts_every_parsed_file [file_a; Unreadable; file_b; Lines []]).
  repeat constructor; discriminate.
Defined.
